(** * Verification of the LOS-1 calculators (bond, mortgage, dividend)

    Shallow embedding of the three calculation routines of
    [src/src/App.jsx] and of their earlier versions in
    [src/unnamed/part_000], of the rounding helper, and of what the
    [App] components derive from the results (axis ticks, charted rows).

    Numbers are modelled twice.

    [JS.num] is the idealised model: an exact rational ([Qc], canonical
    fractions, Leibniz equality) or one of the three IEEE special values
    [PInf], [NInf], [NaN].  The special values follow the IEEE rules the
    code relies on (x/0, 0/0, NaN propagation, [Math.pow(x, 0) = 1]).
    It leaves out the rounding of binary64 arithmetic (every finite
    operation is exact), overflow, underflow and the sign of zero, so it
    serves for what does not depend on them: the shape and the length of
    the results, which operations produce a field, the special values of
    degenerate inputs, orderings, the agreement of the two versions.
    Equality of [num] is that of the values, so [x = NaN] reads "x is
    NaN" (it is not the [===] of the language, for which NaN differs
    from itself).

    [F64.num] is binary64 itself, the primitive floating-point numbers:
    [+], [-], [*], [/] and [<] are the IEEE operations (round to
    nearest, ties to even), and [Math.round], [Math.max] and the
    conversion of integers are exact.  [Math.pow], which the language
    only specifies as an approximation, is computed by repeated
    squaring: the theorems stated over [F64] hold whatever [Math.pow]
    returns, and the counterexamples computed on concrete inputs rest
    only on [Math.pow(1, y) = 1] and on overflow to [Infinity].  The
    mortgage schedule and the dividend series are embedded over [F64]
    as well; what is said of amounts rounded to cents, of overflow and
    of the reach of the NaN sentinels is said there.

    Integer-valued parameters and counters (years, freq, shortYears,
    horizonYears, loop indices, array lengths) are [Z]; array lengths
    are assumed to fit the engine's array limit.  The object parameter
    of each calculator is destructured by the source into local
    variables, so the embedding takes those variables as arguments; the
    default values of the destructuring patterns are recorded as
    [default_*] constants. *)

From Stdlib Require Import ZArith QArith Qcanon Qround List Bool Lia Lqa.
From Stdlib Require PrimFloat FloatOps SpecFloat FloatAxioms.
Import ListNotations.

Set Implicit Arguments.

(* ================================================================== *)
(** * JavaScript numbers *)
(* ================================================================== *)

Module JS.

Inductive num : Type :=
| Fin (q : Qc)
| PInf
| NInf
| NaN.

Definition of_Q (q : Q) : num := Fin (Q2Qc q).
Definition of_Z (z : Z) : num := of_Q (inject_Z z).

Definition zero : num := of_Z 0.
Definition one : num := of_Z 1.

(** [Number.isFinite] and [Number.isNaN]. *)
Definition isFinite (x : num) : bool :=
  match x with Fin _ => true | _ => false end.

Definition isNaN (x : num) : bool :=
  match x with NaN => true | _ => false end.

(** Sign of a rational, as the comparison with zero. *)
Definition sgn (q : Qc) : comparison := (q ?= 0)%Qc.

(** The infinity with the sign of [q]; [0 * Infinity] is NaN. *)
Definition inf_of_sign (s : comparison) : num :=
  match s with Gt => PInf | Lt => NInf | Eq => NaN end.

Definition flip (x : num) : num :=
  match x with
  | Fin q => Fin (- q)
  | PInf => NInf
  | NInf => PInf
  | NaN => NaN
  end.

(** [x + y] *)
Definition add (x y : num) : num :=
  match x, y with
  | NaN, _ | _, NaN => NaN
  | Fin a, Fin b => Fin (a + b)
  | PInf, NInf | NInf, PInf => NaN
  | PInf, _ | _, PInf => PInf
  | NInf, _ | _, NInf => NInf
  end.

(** [x - y] *)
Definition sub (x y : num) : num := add x (flip y).

(** [x * y] *)
Definition mul (x y : num) : num :=
  match x, y with
  | NaN, _ | _, NaN => NaN
  | Fin a, Fin b => Fin (a * b)
  | Fin a, PInf | PInf, Fin a => inf_of_sign (sgn a)
  | Fin a, NInf | NInf, Fin a => inf_of_sign (CompOpp (sgn a))
  | PInf, PInf | NInf, NInf => PInf
  | PInf, NInf | NInf, PInf => NInf
  end.

(** [x / y]; a zero divisor is +0. *)
Definition div (x y : num) : num :=
  match x, y with
  | NaN, _ | _, NaN => NaN
  | Fin a, Fin b =>
      match sgn b with
      | Eq => inf_of_sign (sgn a)
      | _ => Fin (a / b)
      end
  | Fin _, PInf | Fin _, NInf => zero
  | PInf, Fin b => match sgn b with Lt => NInf | _ => PInf end
  | NInf, Fin b => match sgn b with Lt => PInf | _ => NInf end
  | _, _ => NaN
  end.

(** [x < y]; false as soon as one side is NaN. *)
Definition ltb (x y : num) : bool :=
  match x, y with
  | NaN, _ | _, NaN => false
  | Fin a, Fin b => match (a ?= b)%Qc with Lt => true | _ => false end
  | _, NInf | PInf, _ => false
  | NInf, _ | Fin _, PInf => true
  end.

(** [x * x * ... * x], [k] factors. *)
Fixpoint pow_nat (x : num) (k : nat) : num :=
  match k with
  | O => one
  | S k' => mul x (pow_nat x k')
  end.

(** [Math.pow(x, y)] at an integer exponent [y]: 1 at exponent 0 whatever
    [x] is, the reciprocal of the positive power at a negative exponent. *)
Definition Math_pow (x : num) (y : Z) : num :=
  match y with
  | Z0 => one
  | Zpos p => pow_nat x (Pos.to_nat p)
  | Zneg p => div one (pow_nat x (Pos.to_nat p))
  end.

(** [Math.round(x)]: the integer nearest to [x], ties towards +Infinity. *)
Definition Math_round (x : num) : num :=
  match x with
  | Fin q => of_Z (Qfloor (q + (1 # 2)))
  | _ => x
  end.

(** [Math.max(x, y)] *)
Definition Math_max (x y : num) : num :=
  if isNaN x || isNaN y then NaN
  else if ltb x y then y else x.

(** [Number.EPSILON] = 2^-52 *)
Definition Number_EPSILON : num := of_Q (1 # 4503599627370496).

(** [Array.from({ length: len }, (_, k) => f k)] *)
Definition Array_from {A : Type} (len : Z) (f : nat -> A) : list A :=
  map f (seq 0 (Z.to_nat len)).

(** [xs.reduce((a, b) => a + b, 0)] *)
Definition reduce_add (xs : list num) : num :=
  fold_left add xs zero.

End JS.

Import JS.

Declare Scope num_scope.
Delimit Scope num_scope with num.
Bind Scope num_scope with num.
Infix "+" := add : num_scope.
Infix "-" := sub : num_scope.
Infix "*" := mul : num_scope.
Infix "/" := div : num_scope.
Notation "x <? y" := (ltb x y) : num_scope.

(** Decimal literals of the source, as exact fractions. *)
Definition dec (a : Z) (b : positive) : num := of_Q (a # b).

(* ================================================================== *)
(** * Helpers of [src/src/App.jsx] *)
(* ================================================================== *)

(** [const round2 = (x) => Math.round((x + Number.EPSILON) * 100) / 100;] *)
Definition round2 (x : num) : num :=
  (Math_round ((x + Number_EPSILON) * of_Z 100) / of_Z 100)%num.

(** [for (let t = 1; t <= n; t++) s = body(t, s)]: the body runs
    [Z.to_nat n] times, with [t] going up from 1, on the variables [s]
    it updates (the array it pushes to, the running local). *)
Fixpoint for_from {S : Type} (body : Z -> S -> S) (k : nat) (t : Z) (s : S) : S :=
  match k with
  | O => s
  | S k' => for_from body k' (t + 1)%Z (body t s)
  end.

Definition for_1_to {S : Type} (n : Z) (body : Z -> S -> S) (s : S) : S :=
  for_from body (Z.to_nat n) 1%Z s.

(** [arr.push(x)] *)
Definition push {A : Type} (arr : list A) (x : A) : list A := arr ++ [x].

(** Reading a property of [arr[idx]]: a TypeError ([None]) when [idx] is
    out of range, [arr[idx]] being [undefined] there. *)
Definition at_index {A : Type} (arr : list A) (idx : nat) : option A :=
  nth_error arr idx.

Definition bind {A B : Type} (o : option A) (f : A -> option B) : option B :=
  match o with Some a => f a | None => None end.

Notation "'let?' x ':=' o 'in' k" := (bind o (fun x => k))
  (at level 10, x name, o at level 100, k at level 200).

(** [Array.from({ length: len }, (_, idx) => f idx)] with a callback
    that can throw: the first exception aborts the construction. *)
Fixpoint all_some {A : Type} (xs : list (option A)) : option (list A) :=
  match xs with
  | [] => Some []
  | x :: xs' =>
      let? a := x in
      let? rest := all_some xs' in
      Some (a :: rest)
  end.

Definition Array_from_throwing {A : Type} (len : Z) (f : nat -> option A)
  : option (list A) :=
  all_some (Array_from len f).

(* ================================================================== *)
(** * Bond cash flows ([buildBondCashFlows], App.jsx 159-172) *)
(* ================================================================== *)

Module Bond.

Record CashFlowPoint : Type := mkPoint
  { period : num; coupon : num; other : num; total : num }.

Record BondResult : Type := mkResult
  { flows : list CashFlowPoint; price : num; c : num; r : num; n : Z }.

Definition default_face : num := of_Z 100.
Definition default_years : Z := 5.
Definition default_couponRate : num := dec 86 1000.
Definition default_ytm : num := dec 65 1000.
Definition default_freq : Z := 2.

Definition buildBondCashFlows
  (face : num) (years : Z) (couponRate ytm : num) (freq : Z) : BondResult :=
  let n := (years * freq)%Z in
  let c := (couponRate * face / of_Z freq)%num in
  let r := (ytm / of_Z freq)%num in
  let flows :=
    for_1_to n (fun t flows =>
      let cf := if (t =? n)%Z then (c + face)%num else c in
      push flows
        (mkPoint (of_Z t / of_Z freq)%num c
                 (if (t =? n)%Z then face else zero) cf)) [] in
  let pvCoupons :=
    reduce_add
      (Array_from n (fun k => (c / Math_pow (one + r) (Z.of_nat k + 1))%num)) in
  let pvRedemption := (face / Math_pow (one + r) n)%num in
  let price := (pvCoupons + pvRedemption)%num in
  mkResult flows price c r n.

End Bond.

(* ================================================================== *)
(** * Mortgage schedule ([buildMortgageSchedule], App.jsx 175-200) *)
(* ================================================================== *)

Module Mortgage.

Record AmortizationRow : Type := mkRow
  { month : Z; interest : num; principal : num; total : num; balance : num }.

Record MortgageResult : Type := mkResult
  { rows : list AmortizationRow; pmt : num }.

Definition default_principal : num := of_Z 800000.
Definition default_rate : num := dec 6 100.
Definition default_years : Z := 30.

(** One pass of the loop body at month [t], on the variables the loop
    updates: [bal] and [rows]. *)
Definition month_body (n : Z) (i pmt : num) (t : Z)
  (s : num * list AmortizationRow) : num * list AmortizationRow :=
  let '(bal, rows) := s in
  let interest := round2 (bal * i) in
  let principalPaid := round2 (pmt - interest) in
  let principalPaid := if (t =? n)%Z then round2 bal else principalPaid in
  let interest := if (t =? n)%Z then round2 (pmt - principalPaid) else interest in
  let bal := round2 (bal - principalPaid) in
  (bal,
   push rows
     (mkRow t interest principalPaid
            (round2 (interest + principalPaid))
            (Math_max bal zero))).

Definition buildMortgageSchedule
  (principal rate : num) (years : Z) : MortgageResult :=
  let m := 12%Z in
  let n := (years * m)%Z in
  let i := (rate / of_Z m)%num in
  let pmt := round2 (i * principal / (one - Math_pow (one + i) (- n))) in
  let rows := snd (for_1_to n (month_body n i pmt) (principal, [])) in
  mkResult rows pmt.

End Mortgage.

(* ================================================================== *)
(** * Dividend series ([buildDividendSeries], App.jsx 203-239) *)
(* ================================================================== *)

Module Dividend.

(** The three shapes of objects the loops push, and the merged point. *)
Module ConstantPt.
Record t : Type := mk { year : Z; constDiv : num }.
End ConstantPt.

Module ConstGrowthPt.
Record t : Type := mk { year : Z; constGrow : num }.
End ConstGrowthPt.

Module TwoStagePt.
Record t : Type := mk { year : Z; twoStage : num }.
End TwoStagePt.

Record SeriesPoint : Type := mkPoint
  { year : Z; constDiv : num; constGrow : num; twoStage : num }.

Record DividendResult : Type := mkResult
  { data : list SeriesPoint;
    priceNoGrowth : num; priceGordon : num; priceTwoStage : num }.

Definition default_D0 : num := of_Z 5.
Definition default_required : num := dec 1 10.
Definition default_gConst : num := dec 5 100.
Definition default_gShort : num := dec 5 100.
Definition default_gLong : num := dec 3 100.
Definition default_shortYears : Z := 5.
Definition default_horizonYears : Z := 10.

(** The first loop: [Dt] and [constGrowth]. *)
Definition constGrowth_body (gConst : num) (t : Z)
  (s : num * list ConstGrowthPt.t) : num * list ConstGrowthPt.t :=
  let '(Dt, constGrowth) := s in
  let Dt := if (1 <? t)%Z then (Dt * (one + gConst))%num else Dt in
  (Dt, push constGrowth (ConstGrowthPt.mk t Dt)).

(** The second loop: [Dt] and [twoStage]. *)
Definition twoStage_body (gShort gLong : num) (shortYears : Z) (t : Z)
  (s : num * list TwoStagePt.t) : num * list TwoStagePt.t :=
  let '(Dt, twoStage) := s in
  let Dt :=
    if (1 <? t)%Z then
      let g := if (t <=? shortYears)%Z then gShort else gLong in
      (Dt * (one + g))%num
    else Dt in
  (Dt, push twoStage (TwoStagePt.mk t Dt)).

Definition buildDividendSeries
  (D0 required gConst gShort gLong : num) (shortYears horizonYears : Z)
  : option DividendResult :=
  let constGrowth :=
    snd (for_1_to horizonYears (constGrowth_body gConst)
           ((D0 * (one + gConst))%num, [])) in
  let twoStage :=
    snd (for_1_to horizonYears (twoStage_body gShort gLong shortYears)
           ((D0 * (one + gShort))%num, [])) in
  let? data :=
    Array_from_throwing horizonYears (fun idx =>
      let? cg := at_index constGrowth idx in
      let? ts := at_index twoStage idx in
      Some (mkPoint (Z.of_nat idx + 1) D0
                    (ConstGrowthPt.constGrow cg) (TwoStagePt.twoStage ts))) in
  let priceNoGrowth := (D0 / required)%num in
  let priceGordon :=
    if (gConst <? required)%num
    then (D0 * (one + gConst) / (required - gConst))%num
    else NaN in
  let cf1 :=
    reduce_add
      (Array_from shortYears (fun k =>
         (D0 * Math_pow (one + gShort) (Z.of_nat k + 1)
          / Math_pow (one + required) (Z.of_nat k + 1))%num)) in
  let D_T1 := (D0 * Math_pow (one + gShort) shortYears * (one + gLong))%num in
  let TV := if (gLong <? required)%num then (D_T1 / (required - gLong))%num else NaN in
  let pvTV := (TV / Math_pow (one + required) shortYears)%num in
  let priceTwoStage := (cf1 + pvTV)%num in
  Some (mkResult data priceNoGrowth priceGordon priceTwoStage).

End Dividend.

(* ================================================================== *)
(** * The earlier versions ([src/unnamed/part_000], lines 37-101) *)
(* ================================================================== *)

Module Part000.

(** Lines 37-50. *)
Definition buildBondCashFlows
  (face : num) (years : Z) (couponRate ytm : num) (freq : Z) : Bond.BondResult :=
  let n := (years * freq)%Z in
  let c := (couponRate * face / of_Z freq)%num in
  let r := (ytm / of_Z freq)%num in
  let flows :=
    for_1_to n (fun t flows =>
      let cf := if (t =? n)%Z then (c + face)%num else c in
      push flows
        (Bond.mkPoint (of_Z t / of_Z freq)%num c
                      (if (t =? n)%Z then face else zero) cf)) [] in
  let pvCoupons :=
    reduce_add
      (Array_from n (fun k => (c / Math_pow (one + r) (Z.of_nat k + 1))%num)) in
  let pvRedemption := (face / Math_pow (one + r) n)%num in
  let price := (pvCoupons + pvRedemption)%num in
  Bond.mkResult flows price c r n.

(** Lines 53-67: no rounding to cents, [total] is [pmt] itself. *)
Definition month_body (i pmt : num) (t : Z)
  (s : num * list Mortgage.AmortizationRow) : num * list Mortgage.AmortizationRow :=
  let '(bal, rows) := s in
  let interest := (bal * i)%num in
  let principalPaid := (pmt - interest)%num in
  let bal := (bal - principalPaid)%num in
  (bal,
   push rows (Mortgage.mkRow t interest principalPaid pmt (Math_max bal zero))).

Definition buildMortgageSchedule
  (principal rate : num) (years : Z) : Mortgage.MortgageResult :=
  let m := 12%Z in
  let n := (years * m)%Z in
  let i := (rate / of_Z m)%num in
  let pmt := (i * principal / (one - Math_pow (one + i) (- n)))%num in
  let rows := snd (for_1_to n (month_body i pmt) (principal, [])) in
  Mortgage.mkResult rows pmt.

(** Lines 70-101: the constant series is an array of its own, read back
    by index. *)
Definition buildDividendSeries
  (D0 required gConst gShort gLong : num) (shortYears horizonYears : Z)
  : option Dividend.DividendResult :=
  let constant :=
    Array_from horizonYears (fun k =>
      Dividend.ConstantPt.mk (Z.of_nat k + 1) D0) in
  let constGrowth :=
    snd (for_1_to horizonYears (fun t (s : num * list Dividend.ConstGrowthPt.t) =>
           let '(Dt, constGrowth) := s in
           let Dt := if (1 <? t)%Z then (Dt * (one + gConst))%num else Dt in
           (Dt, push constGrowth (Dividend.ConstGrowthPt.mk t Dt)))
           ((D0 * (one + gConst))%num, [])) in
  let twoStage :=
    snd (for_1_to horizonYears (fun t (s : num * list Dividend.TwoStagePt.t) =>
           let '(Dt, twoStage) := s in
           let Dt :=
             if (1 <? t)%Z then
               let currentG := if (t <=? shortYears)%Z then gShort else gLong in
               (Dt * (one + currentG))%num
             else Dt in
           (Dt, push twoStage (Dividend.TwoStagePt.mk t Dt)))
           ((D0 * (one + gShort))%num, [])) in
  let? data :=
    Array_from_throwing horizonYears (fun idx =>
      let? k := at_index constant idx in
      let? cg := at_index constGrowth idx in
      let? ts := at_index twoStage idx in
      Some (Dividend.mkPoint (Z.of_nat idx + 1)
              (Dividend.ConstantPt.constDiv k)
              (Dividend.ConstGrowthPt.constGrow cg)
              (Dividend.TwoStagePt.twoStage ts))) in
  let priceNoGrowth := (D0 / required)%num in
  let priceGordon :=
    if (gConst <? required)%num
    then (D0 * (one + gConst) / (required - gConst))%num
    else NaN in
  let cf1 :=
    reduce_add
      (Array_from shortYears (fun k =>
         (D0 * Math_pow (one + gShort) (Z.of_nat k + 1)
          / Math_pow (one + required) (Z.of_nat k + 1))%num)) in
  let D_T1 := (D0 * Math_pow (one + gShort) shortYears * (one + gLong))%num in
  let TV := if (gLong <? required)%num then (D_T1 / (required - gLong))%num else NaN in
  let pvTV := (TV / Math_pow (one + required) shortYears)%num in
  let priceTwoStage := (cf1 + pvTV)%num in
  Some (Dividend.mkResult data priceNoGrowth priceGordon priceTwoStage).

End Part000.

(* ================================================================== *)
(** * The callers: what the [App] components derive from the results *)
(* ================================================================== *)

(** [Math.ceil(x)] *)
Definition Math_ceil (x : num) : num :=
  match x with
  | Fin q => of_Z (Qceiling q)
  | _ => x
  end.

(** The integer part of a rational, towards zero. *)
Definition Qtrunc (q : Q) : Z :=
  if Qle_bool 0 q then Qfloor q else Qceiling q.

(** [ToLength(x)], the length [Array.from] reads off [{ length: x }]:
    the integer part of [x] clamped to [0 .. 2^53 - 1], 0 for NaN. *)
Definition ToLength (x : num) : Z :=
  match x with
  | Fin q => Z.min (Z.max (Qtrunc q) 0) (2 ^ 53 - 1)
  | PInf => (2 ^ 53 - 1)%Z
  | NInf | NaN => 0%Z
  end.

Module App.

(** App.jsx 269: [useMemo(() => mortgage.rows, [mortgage])] *)
Definition mortgageChart (mortgage : Mortgage.MortgageResult)
  : list Mortgage.AmortizationRow :=
  Mortgage.rows mortgage.

(** App.jsx 270-273: the x-axis ticks, one per whole year. *)
Definition mortgageTicks (mortgageChart : list Mortgage.AmortizationRow)
  : list Z :=
  let yrs :=
    Math_ceil (of_Z (Z.of_nat (length mortgageChart)) / of_Z 12)%num in
  Array_from (ToLength yrs) (fun i => ((Z.of_nat i + 1) * 12)%Z).

End App.

Module Part000App.

(** part_000 line 158: [mortgage.rows.slice(0, 120)] *)
Definition mortgageChart (mortgage : Mortgage.MortgageResult)
  : list Mortgage.AmortizationRow :=
  firstn 120 (Mortgage.rows mortgage).

End Part000App.

(* ================================================================== *)
(** * Binary64 numbers, and the calculators over them *)
(* ================================================================== *)

Module F64.

Definition num : Type := PrimFloat.float.

Definition add : num -> num -> num := PrimFloat.add.
Definition sub : num -> num -> num := PrimFloat.sub.
Definition mul : num -> num -> num := PrimFloat.mul.
Definition div : num -> num -> num := PrimFloat.div.

(** [x < y]; false as soon as one side is NaN. *)
Definition ltb : num -> num -> bool := PrimFloat.ltb.

Module Notations.
Declare Scope f64_scope.
Delimit Scope f64_scope with f64.
Bind Scope f64_scope with num.
Infix "+" := add : f64_scope.
Infix "-" := sub : f64_scope.
Infix "*" := mul : f64_scope.
Infix "/" := div : f64_scope.
Notation "x <? y" := (ltb x y) : f64_scope.
End Notations.
Import Notations.

Definition PInf : num := PrimFloat.infinity.
Definition NInf : num := PrimFloat.neg_infinity.
Definition NaN : num := PrimFloat.nan.

(** The number nearest to the integer [z] (the integer itself below
    2^53). *)
Definition of_Z (z : Z) : num :=
  FloatOps.SF2Prim
    (SpecFloat.binary_normalize FloatOps.prec FloatOps.emax z 0 false).

Definition zero : num := of_Z 0.
Definition one : num := of_Z 1.

(** The quotient [a / b] of two integers, rounded once: the number a
    decimal literal such as [0.06] denotes ([dec 6 100]), and what a
    percentage field stores for the percentage [a] ([a / 100]). *)
Definition dec (a : Z) (b : positive) : num := (of_Z a / of_Z (Z.pos b))%f64.

(** [Number.isFinite] and [Number.isNaN]. *)
Definition isFinite (x : num) : bool := PrimFloat.is_finite x.
Definition isNaN (x : num) : bool := PrimFloat.is_nan x.

(** [x] to the power [p], by repeated squaring. *)
Definition pow_pos (x : num) (p : positive) : num := Pos.iter_op mul p x.

(** [Math.pow(x, y)] at an integer exponent [y]: 1 at exponent 0 whatever
    [x] is, as the language specifies; elsewhere the language asks for
    an approximation of the power, and the one taken here is the
    repeated product, and its reciprocal at a negative exponent. *)
Definition Math_pow (x : num) (y : Z) : num :=
  match y with
  | Z0 => one
  | Zpos p => pow_pos x p
  | Zneg p => div one (pow_pos x p)
  end.

(** [Math.round(x)]: the integer nearest to [x], ties towards +Infinity;
    [x] itself when it is an integer, a zero, an infinity or NaN, and -0
    for [-0.5 <= x < 0].  A finite [x] is [v * 2^e] for its signed
    significand [v]; with [e < 0] the result is
    [floor ((2 v + 2^-e) / 2^(1-e))], an integer below 2^53. *)
Definition Math_round (x : num) : num :=
  match FloatOps.Prim2SF x with
  | SpecFloat.S754_finite s m e =>
      if (0 <=? e)%Z then x
      else
        let v := if s then Z.neg m else Z.pos m in
        let d := (2 ^ (- e))%Z in
        let r := ((2 * v + d) / (2 * d))%Z in
        if (r =? 0)%Z then (if s then PrimFloat.neg_zero else zero) else of_Z r
  | _ => x
  end.

(** [Math.max(x, y)]: NaN when one side is, +0 rather than -0. *)
Definition Math_max (x y : num) : num :=
  if isNaN x || isNaN y then NaN
  else if ltb x y then y
  else if ltb y x then x
  else if PrimFloat.is_zero x then add x y
  else x.

(** [Number.EPSILON] = 2^-52 *)
Definition Number_EPSILON : num := (one / of_Z (2 ^ 52))%f64.

(** [xs.reduce((a, b) => a + b, 0)] *)
Definition reduce_add (xs : list num) : num := fold_left add xs zero.

(** [const round2 = (x) => Math.round((x + Number.EPSILON) * 100) / 100;] *)
Definition round2 (x : num) : num :=
  (Math_round ((x + Number_EPSILON) * of_Z 100) / of_Z 100)%f64.

(** [buildMortgageSchedule], App.jsx 175-200. *)
Module Mortgage.

Record AmortizationRow : Type := mkRow
  { month : Z; interest : num; principal : num; total : num; balance : num }.

Record MortgageResult : Type := mkResult
  { rows : list AmortizationRow; pmt : num }.

Definition month_body (n : Z) (i pmt : num) (t : Z)
  (s : num * list AmortizationRow) : num * list AmortizationRow :=
  let '(bal, rows) := s in
  let interest := round2 (bal * i) in
  let principalPaid := round2 (pmt - interest) in
  let principalPaid := if (t =? n)%Z then round2 bal else principalPaid in
  let interest := if (t =? n)%Z then round2 (pmt - principalPaid) else interest in
  let bal := round2 (bal - principalPaid) in
  (bal,
   push rows
     (mkRow t interest principalPaid
            (round2 (interest + principalPaid))
            (Math_max bal zero))).

Definition buildMortgageSchedule
  (principal rate : num) (years : Z) : MortgageResult :=
  let m := 12%Z in
  let n := (years * m)%Z in
  let i := (rate / of_Z m)%f64 in
  let pmt := round2 (i * principal / (one - Math_pow (one + i) (- n))) in
  let rows := snd (for_1_to n (month_body n i pmt) (principal, [])) in
  mkResult rows pmt.

End Mortgage.

(** [buildDividendSeries], App.jsx 203-239. *)
Module Dividend.

Module ConstGrowthPt.
Record t : Type := mk { year : Z; constGrow : num }.
End ConstGrowthPt.

Module TwoStagePt.
Record t : Type := mk { year : Z; twoStage : num }.
End TwoStagePt.

Record SeriesPoint : Type := mkPoint
  { year : Z; constDiv : num; constGrow : num; twoStage : num }.

Record DividendResult : Type := mkResult
  { data : list SeriesPoint;
    priceNoGrowth : num; priceGordon : num; priceTwoStage : num }.

Definition constGrowth_body (gConst : num) (t : Z)
  (s : num * list ConstGrowthPt.t) : num * list ConstGrowthPt.t :=
  let '(Dt, constGrowth) := s in
  let Dt := if (1 <? t)%Z then (Dt * (one + gConst))%f64 else Dt in
  (Dt, push constGrowth (ConstGrowthPt.mk t Dt)).

Definition twoStage_body (gShort gLong : num) (shortYears : Z) (t : Z)
  (s : num * list TwoStagePt.t) : num * list TwoStagePt.t :=
  let '(Dt, twoStage) := s in
  let Dt :=
    if (1 <? t)%Z then
      let g := if (t <=? shortYears)%Z then gShort else gLong in
      (Dt * (one + g))%f64
    else Dt in
  (Dt, push twoStage (TwoStagePt.mk t Dt)).

Definition buildDividendSeries
  (D0 required gConst gShort gLong : num) (shortYears horizonYears : Z)
  : option DividendResult :=
  let constGrowth :=
    snd (for_1_to horizonYears (constGrowth_body gConst)
           ((D0 * (one + gConst))%f64, [])) in
  let twoStage :=
    snd (for_1_to horizonYears (twoStage_body gShort gLong shortYears)
           ((D0 * (one + gShort))%f64, [])) in
  let? data :=
    Array_from_throwing horizonYears (fun idx =>
      let? cg := at_index constGrowth idx in
      let? ts := at_index twoStage idx in
      Some (mkPoint (Z.of_nat idx + 1) D0
                    (ConstGrowthPt.constGrow cg) (TwoStagePt.twoStage ts))) in
  let priceNoGrowth := (D0 / required)%f64 in
  let priceGordon :=
    if (gConst <? required)%f64
    then (D0 * (one + gConst) / (required - gConst))%f64
    else NaN in
  let cf1 :=
    reduce_add
      (Array_from shortYears (fun k =>
         (D0 * Math_pow (one + gShort) (Z.of_nat k + 1)
          / Math_pow (one + required) (Z.of_nat k + 1))%f64)) in
  let D_T1 := (D0 * Math_pow (one + gShort) shortYears * (one + gLong))%f64 in
  let TV := if (gLong <? required)%f64 then (D_T1 / (required - gLong))%f64 else NaN in
  let pvTV := (TV / Math_pow (one + required) shortYears)%f64 in
  let priceTwoStage := (cf1 + pvTV)%f64 in
  Some (mkResult data priceNoGrowth priceGordon priceTwoStage).

End Dividend.

End F64.

Import F64.Notations.

(* ================================================================== *)
(** * Definitions used to state and prove the properties *)
(* ================================================================== *)

(** ** What a loop computes, pass by pass

    A loop whose body updates one local [v] by [step] and pushes
    [out t v] leaves [vals step k t v] in the local after [k] passes
    and has pushed [outs step out k t v]. *)
Fixpoint vals {V : Type} (step : Z -> V -> V) (k : nat) (t : Z) (v : V) : V :=
  match k with
  | O => v
  | S k' => vals step k' (t + 1)%Z (step t v)
  end.

Fixpoint outs {V A : Type} (step : Z -> V -> V) (out : Z -> V -> A)
  (k : nat) (t : Z) (v : V) : list A :=
  match k with
  | O => []
  | S k' => out t v :: outs step out k' (t + 1)%Z (step t v)
  end.

(** ** Reading a number back

    The fraction in lowest terms of a finite number; [hundredths k] is
    the one of [k / 100]. *)
Definition finite_part (x : num) : option Q :=
  match x with
  | Fin q => Some (this q)
  | _ => None
  end.

Definition hundredths (k : Z) : option Q := Some (Qred (k # 100)).

(** ** Bond: the present-value formula in the spec's words

    [discount x r t] is [x] discounted at [(1+r)^-t]; [sigma k f] is the
    sum of [f t] for [t = 1..k]. *)
Definition discount (x r : num) (t : Z) : num :=
  (x * Math_pow (one + r) (- t))%num.

Fixpoint sigma (k : nat) (f : Z -> num) : num :=
  match k with
  | O => zero
  | S k' => (sigma k' f + f (Z.of_nat (S k')))%num
  end.

Definition pv_of_cash_flows
  (face : num) (years : Z) (couponRate ytm : num) (freq : Z) : num :=
  let n := (years * freq)%Z in
  let c := (couponRate * face / of_Z freq)%num in
  let r := (ytm / of_Z freq)%num in
  (sigma (Z.to_nat n) (discount c r) + discount face r n)%num.

(** Every number of a bond result is finite. *)
Definition point_numeric (p : Bond.CashFlowPoint) : bool :=
  isFinite (Bond.period p) && isFinite (Bond.coupon p)
  && isFinite (Bond.other p) && isFinite (Bond.total p).

Definition bond_numeric (res : Bond.BondResult) : bool :=
  forallb point_numeric (Bond.flows res)
  && isFinite (Bond.price res) && isFinite (Bond.c res) && isFinite (Bond.r res).

(** ** Mortgage: cents, and the loop body component by component *)

(** [k] hundredths. *)
Definition cents (k : Z) : Qc := Q2Qc (k # 100).

(** The number of hundredths [round2] rounds a finite [q] to. *)
Definition round_cents (q : Qc) : Z :=
  Qfloor (this ((q + Q2Qc (1 # 4503599627370496)) * Q2Qc (inject_Z 100))%Qc
          + (1 # 2)).

Definition month_principal (n : Z) (i pmt : num) (t : Z) (bal : num) : num :=
  if (t =? n)%Z then round2 bal else round2 (pmt - round2 (bal * i)).

Definition month_interest (n : Z) (i pmt : num) (t : Z) (bal : num) : num :=
  if (t =? n)%Z then round2 (pmt - month_principal n i pmt t bal)
  else round2 (bal * i).

Definition month_bal (n : Z) (i pmt : num) (t : Z) (bal : num) : num :=
  round2 (bal - month_principal n i pmt t bal).

Definition month_row (n : Z) (i pmt : num) (t : Z) (bal : num)
  : Mortgage.AmortizationRow :=
  Mortgage.mkRow t
    (month_interest n i pmt t bal) (month_principal n i pmt t bal)
    (round2 (month_interest n i pmt t bal + month_principal n i pmt t bal))
    (Math_max (month_bal n i pmt t bal) zero).

(** The value of [bal] when the pass of month [t] starts: the loop of
    [buildMortgageSchedule] stopped after [t - 1] passes. *)
Definition bal_entering (principal rate : num) (years : Z) (t : Z) : num :=
  let m := 12%Z in
  let n := (years * m)%Z in
  let i := (rate / of_Z m)%num in
  let pmt := round2 (i * principal / (one - Math_pow (one + i) (- n))) in
  fst (for_1_to (t - 1) (Mortgage.month_body n i pmt) (principal, [])).

(** ** Dividends: the two running dividends and the merged series *)
Definition cg_step (gConst : num) (t : Z) (Dt : num) : num :=
  if (1 <? t)%Z then (Dt * (one + gConst))%num else Dt.

Definition ts_step (gShort gLong : num) (shortYears : Z) (t : Z) (Dt : num) : num :=
  if (1 <? t)%Z
  then (Dt * (one + (if (t <=? shortYears)%Z then gShort else gLong)))%num
  else Dt.

(** Entry [idx] holds the value of [Dt] after [idx + 1] passes of each
    loop. *)
Definition series (D0 gConst gShort gLong : num) (shortYears horizonYears : Z)
  : list Dividend.SeriesPoint :=
  map (fun idx =>
         Dividend.mkPoint (Z.of_nat idx + 1) D0
           (vals (cg_step gConst) (S idx) 1 (D0 * (one + gConst))%num)
           (vals (ts_step gShort gLong shortYears) (S idx) 1
                 (D0 * (one + gShort))%num))
      (seq 0 (Z.to_nat horizonYears)).

(** [f 0 + ... + f (N - 1)] *)
Fixpoint qsum (N : nat) (f : nat -> Qc) : Qc :=
  match N with
  | O => 0%Qc
  | S N' => (qsum N' f + f N')%Qc
  end.

(** The two-stage price on finite inputs with [gL < r], [T] short years. *)
Definition two_stage_value (D0 r gS gL : Qc) (T : nat) : Qc :=
  (qsum T (fun k => D0 * (1 + gS) ^ S k / (1 + r) ^ S k)
   + D0 * (1 + gS) ^ T * (1 + gL) / (r - gL) / (1 + r) ^ T)%Qc.

(** ** Definitions for the further properties *)

(** The loop body of the earlier [buildMortgageSchedule], component by
    component. *)
Definition raw_bal (i pmt : num) (t : Z) (bal : num) : num :=
  (bal - (pmt - bal * i))%num.

Definition raw_row (i pmt : num) (t : Z) (bal : num) : Mortgage.AmortizationRow :=
  Mortgage.mkRow t (bal * i)%num (pmt - bal * i)%num pmt
    (Math_max (raw_bal i pmt t bal) zero).

(** ** Binary64: the loops component by component *)

Module F64Parts.

(** The loop body of [buildMortgageSchedule], and the value of [bal]
    when the pass of month [t] starts. *)
Definition month_principal (n : Z) (i pmt : F64.num) (t : Z) (bal : F64.num)
  : F64.num :=
  if (t =? n)%Z then F64.round2 bal
  else F64.round2 (pmt - F64.round2 (bal * i))%f64.

Definition month_interest (n : Z) (i pmt : F64.num) (t : Z) (bal : F64.num)
  : F64.num :=
  if (t =? n)%Z then F64.round2 (pmt - month_principal n i pmt t bal)%f64
  else F64.round2 (bal * i)%f64.

Definition month_bal (n : Z) (i pmt : F64.num) (t : Z) (bal : F64.num)
  : F64.num :=
  F64.round2 (bal - month_principal n i pmt t bal)%f64.

Definition month_row (n : Z) (i pmt : F64.num) (t : Z) (bal : F64.num)
  : F64.Mortgage.AmortizationRow :=
  F64.Mortgage.mkRow t
    (month_interest n i pmt t bal) (month_principal n i pmt t bal)
    (F64.round2 (month_interest n i pmt t bal + month_principal n i pmt t bal)%f64)
    (F64.Math_max (month_bal n i pmt t bal) F64.zero).

Definition bal_entering (principal rate : F64.num) (years : Z) (t : Z) : F64.num :=
  let m := 12%Z in
  let n := (years * m)%Z in
  let i := (rate / F64.of_Z m)%f64 in
  let pmt :=
    F64.round2 (i * principal / (F64.one - F64.Math_pow (F64.one + i) (- n)))%f64 in
  fst (for_1_to (t - 1) (F64.Mortgage.month_body n i pmt) (principal, [])).

(** The two running dividends and the merged series of
    [buildDividendSeries]. *)
Definition cg_step (gConst : F64.num) (t : Z) (Dt : F64.num) : F64.num :=
  if (1 <? t)%Z then (Dt * (F64.one + gConst))%f64 else Dt.

Definition ts_step (gShort gLong : F64.num) (shortYears : Z) (t : Z) (Dt : F64.num)
  : F64.num :=
  if (1 <? t)%Z
  then (Dt * (F64.one + (if (t <=? shortYears)%Z then gShort else gLong)))%f64
  else Dt.

Definition series (D0 gConst gShort gLong : F64.num) (shortYears horizonYears : Z)
  : list F64.Dividend.SeriesPoint :=
  map (fun idx =>
         F64.Dividend.mkPoint (Z.of_nat idx + 1) D0
           (vals (cg_step gConst) (S idx) 1 (D0 * (F64.one + gConst))%f64)
           (vals (ts_step gShort gLong shortYears) (S idx) 1
                 (D0 * (F64.one + gShort))%f64))
      (seq 0 (Z.to_nat horizonYears)).

(** Its locals [cf1] and [pvTV]: the short-stage sum and the discounted
    terminal value. *)
Definition cf1 (D0 required gShort : F64.num) (shortYears : Z) : F64.num :=
  F64.reduce_add
    (Array_from shortYears (fun k =>
       (D0 * F64.Math_pow (F64.one + gShort) (Z.of_nat k + 1)
        / F64.Math_pow (F64.one + required) (Z.of_nat k + 1))%f64)).

Definition pvTV (D0 required gShort gLong : F64.num) (shortYears : Z) : F64.num :=
  ((if (gLong <? required)%f64
    then (D0 * F64.Math_pow (F64.one + gShort) shortYears * (F64.one + gLong)
          / (required - gLong))%f64
    else F64.NaN)
   / F64.Math_pow (F64.one + required) shortYears)%f64.

End F64Parts.
(* ================================================================== *)
(** * Rationals: order, sign, floor *)
(* ================================================================== *)

Lemma this_Q2Qc (q : Q) : (this (Q2Qc q) == q)%Q.
Proof. apply Qred_correct. Qed.

Lemma this_plus (a b : Qc) : (this (a + b)%Qc == this a + this b)%Q.
Proof. apply Qred_correct. Qed.

Lemma this_mult (a b : Qc) : (this (a * b)%Qc == this a * this b)%Q.
Proof. apply Qred_correct. Qed.

Lemma this_opp (a : Qc) : (this (- a)%Qc == - this a)%Q.
Proof. apply Qred_correct. Qed.

Lemma this_inv (a : Qc) : (this (/ a)%Qc == / this a)%Q.
Proof. apply Qred_correct. Qed.

Lemma this_minus (a b : Qc) : (this (a - b)%Qc == this a - this b)%Q.
Proof. unfold Qcminus. rewrite this_plus, this_opp. reflexivity. Qed.

Lemma this_div (a b : Qc) : (this (a / b)%Qc == this a / this b)%Q.
Proof. unfold Qcdiv. rewrite this_mult, this_inv. reflexivity. Qed.

Lemma Qc_eq_this (a b : Qc) : a = b -> (this a == this b)%Q.
Proof. intros ->. reflexivity. Qed.

(** Moves the order facts of a goal from [Qc] to [Q], where [lra] and
    [nra] work. *)
Ltac to_Q :=
  unfold Qcle, Qclt in *;
  repeat rewrite ?this_minus, ?this_div, ?this_plus, ?this_mult, ?this_opp,
                 ?this_inv, ?this_Q2Qc in *.

Lemma sgn_Eq (q : Qc) : sgn q = Eq <-> q = 0%Qc.
Proof. unfold sgn. symmetry. apply Qceq_alt. Qed.

Lemma sgn_Lt (q : Qc) : sgn q = Lt <-> (q < 0)%Qc.
Proof. unfold sgn. symmetry. apply Qclt_alt. Qed.

Lemma sgn_Gt (q : Qc) : sgn q = Gt <-> (0 < q)%Qc.
Proof. unfold sgn. symmetry. apply (Qcgt_alt q 0). Qed.

Lemma sgn_inv (q : Qc) : sgn (/ q) = sgn q.
Proof.
  destruct (sgn q) eqn:E.
  - apply sgn_Eq in E. subst q. reflexivity.
  - pose proof (proj1 (sgn_Lt q) E) as H. apply sgn_Lt.
    to_Q. setoid_replace (/ this q)%Q with (- / (- this q))%Q.
    + assert (0 < / (- this q))%Q by (apply Qinv_lt_0_compat; lra). lra.
    + field. lra.
  - pose proof (proj1 (sgn_Gt q) E) as H. apply sgn_Gt.
    to_Q. apply Qinv_lt_0_compat. exact H.
Qed.

Lemma sgn_nonzero (b : Qc) : b <> 0%Qc -> sgn b <> Eq.
Proof. intros Hb E. apply Hb, sgn_Eq, E. Qed.

Lemma Qcpower_gt_0 (q : Qc) (k : nat) : (0 < q)%Qc -> (0 < q ^ k)%Qc.
Proof.
  intros Hq. induction k as [|k IH]; [reflexivity|].
  cbn [Qcpower]. to_Q. nra.
Qed.

Lemma Qcpower_nonzero (q : Qc) (k : nat) : (0 < q)%Qc -> (q ^ k)%Qc <> 0%Qc.
Proof.
  intros Hq E. pose proof (Qcpower_gt_0 k Hq) as H. rewrite E in H. discriminate H.
Qed.

Lemma Q2Qc_inject_nonzero (z : Z) : z <> 0%Z -> Q2Qc (inject_Z z) <> 0%Qc.
Proof.
  intros Hz E. apply Qc_eq_this in E. rewrite this_Q2Qc in E.
  apply Hz. unfold Qeq in E. cbn in E. lia.
Qed.

(* ================================================================== *)
(** * Numbers: finite arithmetic, division, powers *)
(* ================================================================== *)

Lemma one_is_1 : one = Fin 1%Qc.
Proof. reflexivity. Qed.

Lemma zero_is_0 : zero = Fin 0%Qc.
Proof. reflexivity. Qed.

Lemma add_Fin (a b : Qc) : (Fin a + Fin b)%num = Fin (a + b).
Proof. reflexivity. Qed.

Lemma sub_Fin (a b : Qc) : (Fin a - Fin b)%num = Fin (a - b).
Proof. reflexivity. Qed.

Lemma mul_Fin (a b : Qc) : (Fin a * Fin b)%num = Fin (a * b).
Proof. reflexivity. Qed.

Lemma one_plus_Fin (q : Qc) : (one + Fin q)%num = Fin (1 + q).
Proof. reflexivity. Qed.

Lemma div_Fin (a b : Qc) : b <> 0%Qc -> (Fin a / Fin b)%num = Fin (a / b).
Proof.
  intros Hb. unfold div. destruct (sgn b) eqn:E; try reflexivity.
  apply sgn_Eq in E. contradiction.
Qed.

Lemma div_of_Z (a : Qc) (z : Z) :
  z <> 0%Z -> (Fin a / of_Z z)%num = Fin (a / Q2Qc (inject_Z z)).
Proof. intros Hz. apply div_Fin, Q2Qc_inject_nonzero, Hz. Qed.

Lemma recip_Fin (b : Qc) : b <> 0%Qc -> (one / Fin b)%num = Fin (/ b).
Proof.
  intros Hb. rewrite one_is_1, div_Fin by assumption.
  f_equal. field. assumption.
Qed.

Lemma recip_zero : (one / Fin 0%Qc)%num = PInf.
Proof. reflexivity. Qed.

(** Dividing is multiplying by the reciprocal, special values included. *)
Lemma div_mul_inv (a b : num) : (a / b)%num = (a * (one / b))%num.
Proof.
  destruct b as [b| | |].
  - destruct (Qc_eq_dec b 0) as [-> | Hb].
    + rewrite recip_zero. destruct a as [a| | |]; reflexivity.
    + rewrite recip_Fin by assumption.
      destruct a as [a| | |]; cbn [mul]; try reflexivity.
      * rewrite div_Fin by assumption. reflexivity.
      * rewrite sgn_inv. unfold div.
        pose proof (sgn_nonzero Hb). destruct (sgn b); try reflexivity. contradiction.
      * rewrite sgn_inv. unfold div.
        pose proof (sgn_nonzero Hb). destruct (sgn b); try reflexivity. contradiction.
  - destruct a as [a| | |]; try reflexivity.
    rewrite one_is_1. cbn [div mul]. rewrite zero_is_0. cbn [mul]. f_equal. ring.
  - destruct a as [a| | |]; try reflexivity.
    rewrite one_is_1. cbn [div mul]. rewrite zero_is_0. cbn [mul]. f_equal. ring.
  - destruct a as [a| | |]; reflexivity.
Qed.

Lemma div_one (x : num) : (x / one)%num = x.
Proof.
  destruct x as [a| | |]; try reflexivity.
  rewrite one_is_1, div_Fin by discriminate. f_equal. field. discriminate.
Qed.

Lemma zero_add (x : num) : (zero + x)%num = x.
Proof.
  destruct x as [a| | |]; try reflexivity.
  rewrite zero_is_0, add_Fin. f_equal. ring.
Qed.

Lemma div_zero_not_finite (x : num) : isFinite (x / of_Z 0)%num = false.
Proof.
  destruct x as [a| | |]; try reflexivity.
  change (of_Z 0) with (Fin 0%Qc). unfold div.
  change (sgn 0%Qc) with Eq. cbn iota. destruct (sgn a); reflexivity.
Qed.

Lemma pow_nat_Fin (q : Qc) (k : nat) : pow_nat (Fin q) k = Fin (q ^ k).
Proof.
  induction k as [|k IH]; [reflexivity|].
  cbn [pow_nat Qcpower]. rewrite IH. reflexivity.
Qed.

Lemma Math_pow_nonneg (x : num) (z : Z) :
  (0 <= z)%Z -> Math_pow x z = pow_nat x (Z.to_nat z).
Proof.
  destruct z; [reflexivity | reflexivity | lia].
Qed.

Lemma Math_pow_opp (x : num) (z : Z) :
  (0 < z)%Z -> Math_pow x (- z) = (one / Math_pow x z)%num.
Proof.
  destruct z; [lia | reflexivity | lia].
Qed.

Lemma Math_pow_Fin (q : Qc) (z : Z) :
  (0 <= z)%Z -> Math_pow (Fin q) z = Fin (q ^ Z.to_nat z).
Proof.
  intros Hz. rewrite Math_pow_nonneg by exact Hz. apply pow_nat_Fin.
Qed.

Lemma pow_nat_one (k : nat) : pow_nat one k = one.
Proof. rewrite one_is_1, pow_nat_Fin, Qcpower_1. reflexivity. Qed.

Lemma Math_pow_one (z : Z) : Math_pow one z = one.
Proof.
  destruct z as [|p|p]; cbn [Math_pow].
  - reflexivity.
  - apply pow_nat_one.
  - rewrite pow_nat_one. apply div_one.
Qed.

Lemma ltb_Fin (a b : Qc) : (Fin a <? Fin b)%num = true <-> (a < b)%Qc.
Proof.
  cbn [ltb]. rewrite Qclt_alt. destruct (a ?= b)%Qc; split; congruence.
Qed.

Lemma ltb_Fin_false (a b : Qc) : (Fin a <? Fin b)%num = false <-> (b <= a)%Qc.
Proof.
  cbn [ltb]. rewrite Qcle_alt.
  assert (H : (b ?= a)%Qc = CompOpp (a ?= b)%Qc).
  { unfold Qccompare. rewrite <- Qcompare_antisym. reflexivity. }
  rewrite H. destruct (a ?= b)%Qc; cbn; split; congruence.
Qed.

Lemma reduce_add_Fin (f : nat -> Qc) (N : nat) :
  reduce_add (map (fun k => Fin (f k)) (seq 0 N)) = Fin (qsum N f).
Proof.
  unfold reduce_add. induction N as [|N IH]; [reflexivity|].
  rewrite seq_S, map_app, fold_left_app, IH. reflexivity.
Qed.

Lemma reduce_add_sigma (f : Z -> num) (N : nat) :
  reduce_add (map (fun k => f (Z.of_nat k + 1)%Z) (seq 0 N)) = sigma N f.
Proof.
  unfold reduce_add. induction N as [|N IH]; [reflexivity|].
  rewrite seq_S, map_app, fold_left_app, IH. cbn [map fold_left sigma Nat.add].
  do 2 f_equal. lia.
Qed.

Lemma sigma_ext (f g : Z -> num) (N : nat) :
  (forall t, (0 < t)%Z -> f t = g t) -> sigma N f = sigma N g.
Proof.
  intros E. induction N as [|N IH]; [reflexivity|].
  cbn [sigma]. rewrite IH, E by lia. reflexivity.
Qed.

Lemma div_pow_discount (x r : num) (t : Z) :
  (0 < t)%Z -> (x / Math_pow (one + r) t)%num = discount x r t.
Proof.
  intros Ht. unfold discount. rewrite Math_pow_opp by exact Ht. apply div_mul_inv.
Qed.

(* ================================================================== *)
(** * Rounding to cents *)
(* ================================================================== *)

Lemma round2_Fin (q : Qc) : round2 (Fin q) = Fin (cents (round_cents q)).
Proof.
  unfold round2, Number_EPSILON, of_Z, of_Q.
  rewrite add_Fin, mul_Fin. cbn [Math_round]. unfold of_Z, of_Q.
  rewrite div_Fin by discriminate.
  f_equal. fold (round_cents q). unfold cents.
  apply Qc_is_canon. to_Q.
  generalize (round_cents q). intros k. unfold Qeq. cbn. lia.
Qed.

(* ================================================================== *)
(** * Loops *)
(* ================================================================== *)

Section PushLoop.
Context {V A : Type}.
Variable body : Z -> V * list A -> V * list A.
Variable step : Z -> V -> V.
Variable out : Z -> V -> A.
Hypothesis body_eq :
  forall t v arr, body t (v, arr) = (step t v, push arr (out t v)).

Lemma for_from_unroll (k : nat) (t : Z) (v : V) (arr : list A) :
  for_from body k t (v, arr) = (vals step k t v, arr ++ outs step out k t v).
Proof.
  revert t v arr. induction k as [|k IH]; intros t v arr; cbn [for_from vals outs].
  - rewrite app_nil_r. reflexivity.
  - rewrite body_eq, IH. unfold push. rewrite <- app_assoc. reflexivity.
Qed.
End PushLoop.

(** A loop that only pushes. *)
Lemma for_from_push {A : Type} (g : Z -> A) (k : nat) (t : Z) (arr : list A) :
  for_from (fun t fl => push fl (g t)) k t arr
  = arr ++ outs (fun _ (u : unit) => u) (fun t _ => g t) k t tt.
Proof.
  revert t arr. induction k as [|k IH]; intros t arr; cbn [for_from outs].
  - rewrite app_nil_r. reflexivity.
  - rewrite IH. unfold push. rewrite <- app_assoc. reflexivity.
Qed.

Section Passes.
Context {V A : Type}.
Variable step : Z -> V -> V.
Variable out : Z -> V -> A.

Lemma outs_length (k : nat) (t : Z) (v : V) : length (outs step out k t v) = k.
Proof.
  revert t v. induction k as [|k IH]; intros t v; cbn [outs length].
  - reflexivity.
  - rewrite IH. reflexivity.
Qed.

Lemma outs_nth (k : nat) (t : Z) (v : V) (j : nat) :
  (j < k)%nat ->
  nth_error (outs step out k t v) j
  = Some (out (t + Z.of_nat j)%Z (vals step j t v)).
Proof.
  revert t v j. induction k as [|k IH]; intros t v j Hj; [lia|].
  destruct j as [|j]; cbn [outs nth_error vals].
  - do 2 f_equal. lia.
  - rewrite IH by lia. do 2 f_equal. lia.
Qed.

Lemma vals_S_end (k : nat) (t : Z) (v : V) :
  vals step (S k) t v = step (t + Z.of_nat k)%Z (vals step k t v).
Proof.
  revert t v. induction k as [|k IH]; intros t v.
  - cbn [vals]. f_equal. lia.
  - change (vals step (S (S k)) t v) with (vals step (S k) (t + 1)%Z (step t v)).
    rewrite IH. cbn [vals]. f_equal. lia.
Qed.

Lemma outs_nth_inv (k : nat) (t : Z) (v : V) (j : nat) (a : A) :
  nth_error (outs step out k t v) j = Some a ->
  (j < k)%nat /\ a = out (t + Z.of_nat j)%Z (vals step j t v).
Proof.
  intros H. assert (Hj : (j < k)%nat).
  { rewrite <- (outs_length k t v). apply nth_error_Some. congruence. }
  split; [exact Hj|]. rewrite outs_nth in H by exact Hj. congruence.
Qed.
End Passes.

Lemma all_some_map {A : Type} (f : nat -> option A) (g : nat -> A) (l : list nat) :
  (forall i, In i l -> f i = Some (g i)) ->
  all_some (map f l) = Some (map g l).
Proof.
  induction l as [|i l IH]; intros H; [reflexivity|].
  cbn [map all_some]. rewrite H by (left; reflexivity).
  rewrite IH by (intros j Hj; apply H; right; exact Hj). reflexivity.
Qed.

Lemma nth_error_Array_from {A : Type} (len : Z) (f : nat -> A) (idx : nat) :
  (idx < Z.to_nat len)%nat -> nth_error (Array_from len f) idx = Some (f idx).
Proof.
  intros H. unfold Array_from.
  rewrite nth_error_map, nth_error_seq.
  destruct (Nat.ltb_spec idx (Z.to_nat len)); [reflexivity | lia].
Qed.

Lemma Array_from_throwing_ext {A : Type} (len : Z) (f g : nat -> option A) :
  (forall idx, (idx < Z.to_nat len)%nat -> f idx = g idx) ->
  Array_from_throwing len f = Array_from_throwing len g.
Proof.
  intros E. unfold Array_from_throwing, Array_from. f_equal.
  apply map_ext_in. intros idx Hidx. apply in_seq in Hidx. apply E. lia.
Qed.

(* ================================================================== *)
(** * Bond *)
(* ================================================================== *)

Lemma bond_flows_unroll (face : num) (years : Z) (couponRate ytm : num) (freq : Z) :
  let n := (years * freq)%Z in
  let c := (couponRate * face / of_Z freq)%num in
  Bond.flows (Bond.buildBondCashFlows face years couponRate ytm freq)
  = outs (fun _ (u : unit) => u)
         (fun t _ =>
            Bond.mkPoint (of_Z t / of_Z freq)%num c
              (if (t =? n)%Z then face else zero)
              (if (t =? n)%Z then (c + face)%num else c))
         (Z.to_nat n) 1 tt.
Proof.
  cbn zeta. cbn [Bond.buildBondCashFlows Bond.flows]. unfold for_1_to.
  rewrite for_from_push. reflexivity.
Qed.

(** With no period the price is the face value, whatever the rates. *)
Lemma bond_price_no_period (face : num) (years : Z) (couponRate ytm : num) (freq : Z) :
  (years * freq)%Z = 0%Z ->
  Bond.price (Bond.buildBondCashFlows face years couponRate ytm freq) = face /\
  Bond.flows (Bond.buildBondCashFlows face years couponRate ytm freq) = [].
Proof.
  intros Hn. split.
  - cbn [Bond.buildBondCashFlows Bond.price]. rewrite Hn.
    cbn [Math_pow]. rewrite div_one. apply zero_add.
  - rewrite bond_flows_unroll. cbn zeta. rewrite Hn. reflexivity.
Qed.

(* ================================================================== *)
(** * Mortgage *)
(* ================================================================== *)

Lemma month_body_eq n i pmt t bal rows :
  Mortgage.month_body n i pmt t (bal, rows)
  = (month_bal n i pmt t bal, push rows (month_row n i pmt t bal)).
Proof.
  unfold Mortgage.month_body, month_row, month_bal, month_interest, month_principal.
  destruct (t =? n)%Z; reflexivity.
Qed.

Lemma rows_unroll (principal rate : num) (years : Z) :
  let n := (years * 12)%Z in
  let i := (rate / of_Z 12)%num in
  let p := Mortgage.pmt (Mortgage.buildMortgageSchedule principal rate years) in
  Mortgage.rows (Mortgage.buildMortgageSchedule principal rate years)
  = outs (month_bal n i p) (month_row n i p) (Z.to_nat n) 1 principal.
Proof.
  cbn zeta. cbn [Mortgage.buildMortgageSchedule Mortgage.rows Mortgage.pmt].
  unfold for_1_to.
  rewrite (for_from_unroll _ _ _ (month_body_eq _ _ _)). reflexivity.
Qed.

Lemma mortgage_rows_length (principal rate : num) (years : Z) :
  length (Mortgage.rows (Mortgage.buildMortgageSchedule principal rate years))
  = Z.to_nat (years * 12).
Proof.
  rewrite rows_unroll. apply outs_length.
Qed.

(** With a zero rate the payment is 0/0. *)
Lemma payment_zero_rate (principal : num) (years : Z) :
  Mortgage.pmt (Mortgage.buildMortgageSchedule principal zero years) = NaN.
Proof.
  cbn [Mortgage.buildMortgageSchedule Mortgage.pmt].
  replace (zero / of_Z 12)%num with zero.
  2:{ rewrite zero_is_0. symmetry. rewrite div_of_Z by discriminate.
      f_equal. field. discriminate. }
  replace (one + zero)%num with one
    by (rewrite one_is_1, zero_is_0, add_Fin; f_equal; ring).
  rewrite Math_pow_one.
  replace (one - one)%num with zero
    by (rewrite one_is_1, sub_Fin, zero_is_0; f_equal; ring).
  destruct principal as [q| | |]; reflexivity.
Qed.

(* ================================================================== *)
(** * Dividends *)
(* ================================================================== *)

Lemma constGrowth_body_eq gConst t Dt arr :
  Dividend.constGrowth_body gConst t (Dt, arr)
  = (cg_step gConst t Dt,
     push arr (Dividend.ConstGrowthPt.mk t (cg_step gConst t Dt))).
Proof. reflexivity. Qed.

Lemma twoStage_body_eq gShort gLong shortYears t Dt arr :
  Dividend.twoStage_body gShort gLong shortYears t (Dt, arr)
  = (ts_step gShort gLong shortYears t Dt,
     push arr (Dividend.TwoStagePt.mk t (ts_step gShort gLong shortYears t Dt))).
Proof. reflexivity. Qed.

(** The merge never reads past the end of the two arrays: it returns,
    and returns [series]. *)
Lemma data_total (D0 gConst gShort gLong : num) (shortYears horizonYears : Z) :
  Array_from_throwing horizonYears (fun idx =>
      let? cg := at_index (snd (for_1_to horizonYears
                                  (Dividend.constGrowth_body gConst)
                                  ((D0 * (one + gConst))%num, []))) idx in
      let? ts := at_index (snd (for_1_to horizonYears
                                  (Dividend.twoStage_body gShort gLong shortYears)
                                  ((D0 * (one + gShort))%num, []))) idx in
      Some (Dividend.mkPoint (Z.of_nat idx + 1) D0
              (Dividend.ConstGrowthPt.constGrow cg)
              (Dividend.TwoStagePt.twoStage ts)))
  = Some (series D0 gConst gShort gLong shortYears horizonYears).
Proof.
  unfold Array_from_throwing, Array_from, series, for_1_to.
  rewrite (for_from_unroll _ _ _ (constGrowth_body_eq gConst)).
  rewrite (for_from_unroll _ _ _ (twoStage_body_eq gShort gLong shortYears)).
  cbn [snd app]. apply all_some_map. intros idx Hidx.
  apply in_seq in Hidx. unfold at_index.
  rewrite !outs_nth by lia.
  cbn [bind Dividend.ConstGrowthPt.constGrow Dividend.TwoStagePt.twoStage].
  rewrite !vals_S_end. reflexivity.
Qed.

(** The result of [buildDividendSeries], field by field. *)
Lemma dividend_result
  (D0 required gConst gShort gLong : num) (shortYears horizonYears : Z) :
  exists res,
    Dividend.buildDividendSeries D0 required gConst gShort gLong
      shortYears horizonYears = Some res /\
    Dividend.data res = series D0 gConst gShort gLong shortYears horizonYears /\
    Dividend.priceNoGrowth res = (D0 / required)%num /\
    Dividend.priceGordon res =
      (if (gConst <? required)%num
       then (D0 * (one + gConst) / (required - gConst))%num else NaN) /\
    Dividend.priceTwoStage res =
      (reduce_add
         (Array_from shortYears (fun k =>
            (D0 * Math_pow (one + gShort) (Z.of_nat k + 1)
             / Math_pow (one + required) (Z.of_nat k + 1))%num))
       + (if (gLong <? required)%num
          then (D0 * Math_pow (one + gShort) shortYears * (one + gLong)
                / (required - gLong))%num
          else NaN)
         / Math_pow (one + required) shortYears)%num.
Proof.
  unfold Dividend.buildDividendSeries. rewrite data_total. cbn [bind].
  eexists. split; [reflexivity|]. cbn. repeat split.
Qed.

Lemma series_length (D0 gConst gShort gLong : num) (shortYears horizonYears : Z) :
  length (series D0 gConst gShort gLong shortYears horizonYears)
  = Z.to_nat horizonYears.
Proof.
  unfold series. rewrite length_map, length_seq. reflexivity.
Qed.

Section DividendPrices.
Variables D0 r : Qc.
Hypothesis r_pos : (0 < r)%Qc.

Lemma one_plus_r_pos : (0 < 1 + r)%Qc.
Proof. to_Q. lra. Qed.

Lemma gap_nonzero (g : Qc) : (g < r)%Qc -> (r - g)%Qc <> 0%Qc.
Proof.
  intros Hg E. apply Qc_eq_this in E. to_Q. lra.
Qed.

Lemma noGrowth_Fin : (Fin D0 / Fin r)%num = Fin (D0 / r).
Proof.
  apply div_Fin. intros E. rewrite E in r_pos. discriminate r_pos.
Qed.

Lemma gordon_Fin (g : Qc) :
  (g < r)%Qc ->
  (if (Fin g <? Fin r)%num
   then (Fin D0 * (one + Fin g) / (Fin r - Fin g))%num else NaN)
  = Fin (D0 * (1 + g) / (r - g)).
Proof.
  intros Hg. rewrite (proj2 (ltb_Fin g r) Hg).
  rewrite one_plus_Fin, mul_Fin, sub_Fin. apply div_Fin, gap_nonzero, Hg.
Qed.

Lemma gordon_NaN (g : Qc) :
  (r <= g)%Qc ->
  (if (Fin g <? Fin r)%num
   then (Fin D0 * (one + Fin g) / (Fin r - Fin g))%num else NaN)
  = NaN.
Proof.
  intros Hg. rewrite (proj2 (ltb_Fin_false g r) Hg). reflexivity.
Qed.

Lemma cf1_Fin (gS : Qc) (shortYears : Z) :
  reduce_add
    (Array_from shortYears (fun k =>
       (Fin D0 * Math_pow (one + Fin gS) (Z.of_nat k + 1)
        / Math_pow (one + Fin r) (Z.of_nat k + 1))%num))
  = Fin (qsum (Z.to_nat shortYears)
           (fun k => D0 * (1 + gS) ^ S k / (1 + r) ^ S k)%Qc).
Proof.
  unfold Array_from. rewrite <- reduce_add_Fin. f_equal.
  apply map_ext. intros k.
  rewrite !one_plus_Fin, !Math_pow_Fin by lia.
  replace (Z.to_nat (Z.of_nat k + 1)) with (S k) by lia.
  rewrite mul_Fin. apply div_Fin, Qcpower_nonzero, one_plus_r_pos.
Qed.

Lemma twoStage_Fin (gS gL : Qc) (shortYears : Z) :
  (gL < r)%Qc -> (0 <= shortYears)%Z ->
  (reduce_add
     (Array_from shortYears (fun k =>
        (Fin D0 * Math_pow (one + Fin gS) (Z.of_nat k + 1)
         / Math_pow (one + Fin r) (Z.of_nat k + 1))%num))
   + (if (Fin gL <? Fin r)%num
      then (Fin D0 * Math_pow (one + Fin gS) shortYears * (one + Fin gL)
            / (Fin r - Fin gL))%num
      else NaN)
     / Math_pow (one + Fin r) shortYears)%num
  = Fin (two_stage_value D0 r gS gL (Z.to_nat shortYears)).
Proof.
  intros Hg Hs. rewrite cf1_Fin. rewrite (proj2 (ltb_Fin gL r) Hg).
  rewrite !one_plus_Fin, !Math_pow_Fin by exact Hs.
  rewrite !mul_Fin, sub_Fin.
  rewrite div_Fin by (apply gap_nonzero, Hg).
  rewrite div_Fin by (apply Qcpower_nonzero, one_plus_r_pos).
  reflexivity.
Qed.

(** The geometric sum of the short stage and the discounted terminal
    value telescope to the Gordon value when both stages grow at [g]. *)
Lemma two_stage_reduces (g : Qc) (T : nat) :
  (g < r)%Qc -> two_stage_value D0 r g g T = (D0 * (1 + g) / (r - g))%Qc.
Proof.
  intros Hg. unfold two_stage_value.
  pose proof (gap_nonzero Hg) as Hgap.
  induction T as [|T IH].
  - cbn [qsum Qcpower]. field. split; [exact Hgap | discriminate].
  - rewrite <- IH. cbn [qsum].
    pose proof (Qcpower_nonzero T one_plus_r_pos) as Hp.
    assert (H1 : (1 + r)%Qc <> 0%Qc).
    { intros E. pose proof one_plus_r_pos as H. rewrite E in H. discriminate H. }
    cbn [Qcpower] in *. field. repeat split; assumption.
Qed.
End DividendPrices.

Lemma gordon_nonneg (D0 r g : Qc) :
  (g < r)%Qc -> (0 <= D0)%Qc -> (0 <= 1 + g)%Qc -> (0 <= D0 * (1 + g) / (r - g))%Qc.
Proof.
  intros Hg Hd H1. to_Q. apply Qmult_le_0_compat.
  - apply Qmult_le_0_compat; assumption.
  - apply Qlt_le_weak, Qinv_lt_0_compat. lra.
Qed.

(* ================================================================== *)
(** * Binary64: arithmetic laws and the loops *)
(* ================================================================== *)

(** NaN is absorbing for [+] and [/], and [x - x] is +0 for a finite
    [x]. *)
Lemma f64_add_NaN_r (x : F64.num) : (x + F64.NaN)%f64 = F64.NaN.
Proof.
  apply FloatAxioms.Prim2SF_inj. unfold F64.add. rewrite FloatAxioms.add_spec.
  change (FloatOps.Prim2SF F64.NaN) with SpecFloat.S754_nan.
  destruct (FloatOps.Prim2SF x); reflexivity.
Qed.

Lemma f64_div_NaN_l (x : F64.num) : (F64.NaN / x)%f64 = F64.NaN.
Proof.
  apply FloatAxioms.Prim2SF_inj. unfold F64.div. rewrite FloatAxioms.div_spec.
  change (FloatOps.Prim2SF F64.NaN) with SpecFloat.S754_nan.
  reflexivity.
Qed.

Lemma f64_sub_diag (x : F64.num) :
  F64.isFinite x = true -> (x - x)%f64 = F64.zero.
Proof.
  intros H. apply FloatAxioms.Prim2SF_inj. unfold F64.sub.
  rewrite FloatAxioms.sub_spec.
  unfold F64.isFinite, PrimFloat.is_finite, PrimFloat.is_nan,
    PrimFloat.is_infinity in H.
  rewrite !FloatAxioms.eqb_spec, FloatAxioms.abs_spec in H.
  change (FloatOps.Prim2SF F64.zero) with (SpecFloat.S754_zero false).
  destruct (FloatOps.Prim2SF x) as [s|s| |s m e].
  - destruct s; reflexivity.
  - destruct s; vm_compute in H; discriminate H.
  - vm_compute in H. discriminate H.
  - unfold FloatAxioms.SF64sub, SpecFloat.SFsub. cbn zeta.
    rewrite Z.sub_diag. reflexivity.
Qed.

(** [Math.max(round2(0), 0)] is 0. *)
Lemma f64_settled : F64.Math_max (F64.round2 F64.zero) F64.zero = F64.zero.
Proof. vm_compute. reflexivity. Qed.

(** A number above +0 is not NaN and is not below +0. *)
Lemma f64_positive (x : F64.num) :
  (F64.zero <? x)%f64 = true -> F64.isNaN x = false /\ (x <? F64.zero)%f64 = false.
Proof.
  unfold F64.ltb, F64.isNaN, PrimFloat.is_nan.
  rewrite !FloatAxioms.ltb_spec, FloatAxioms.eqb_spec.
  change (FloatOps.Prim2SF F64.zero) with (SpecFloat.S754_zero false).
  unfold SpecFloat.SFltb, SpecFloat.SFeqb.
  destruct (FloatOps.Prim2SF x) as [s|s| |s m e]; cbn [SpecFloat.SFcompare].
  - discriminate.
  - destruct s; [discriminate | intros _; split; reflexivity].
  - discriminate.
  - destruct s; [discriminate|]. intros _.
    rewrite Z.compare_refl, Pos.compare_cont_refl. split; reflexivity.
Qed.

Lemma f64_Math_max_positive (x : F64.num) :
  (F64.zero <? x)%f64 = true -> F64.Math_max x F64.zero = x.
Proof.
  intros H. destruct (f64_positive H) as [Hn Hl].
  unfold F64.Math_max. rewrite Hn.
  change (F64.isNaN F64.zero) with false. cbn [orb].
  rewrite Hl, H. reflexivity.
Qed.

(** [Number.isFinite] read off the representation. *)
Lemma f64_isFinite_spec (x : F64.num) :
  F64.isFinite x
  = match FloatOps.Prim2SF x with
    | SpecFloat.S754_zero _ | SpecFloat.S754_finite _ _ _ => true
    | _ => false
    end.
Proof.
  unfold F64.isFinite, PrimFloat.is_finite, PrimFloat.is_nan, PrimFloat.is_infinity.
  rewrite !FloatAxioms.eqb_spec, FloatAxioms.abs_spec.
  change (FloatOps.Prim2SF PrimFloat.infinity) with (SpecFloat.S754_infinity false).
  unfold SpecFloat.SFeqb.
  destruct (FloatOps.Prim2SF x) as [s|s| |s m e]; cbn [SpecFloat.SFabs SpecFloat.SFcompare].
  - reflexivity.
  - destruct s; reflexivity.
  - reflexivity.
  - destruct s; rewrite Z.compare_refl, Pos.compare_cont_refl; reflexivity.
Qed.

(** A number that is not finite is NaN or an infinity. *)
Lemma f64_not_finite (x : F64.num) :
  F64.isFinite x = false -> x = F64.NaN \/ x = F64.PInf \/ x = F64.NInf.
Proof.
  rewrite f64_isFinite_spec. intros H.
  rewrite <- (FloatAxioms.SF2Prim_Prim2SF x).
  destruct (FloatOps.Prim2SF x) as [s|s| |s m e]; try discriminate H.
  - destruct s; auto.
  - auto.
Qed.

Lemma f64_round2_not_finite (x : F64.num) :
  F64.isFinite x = false -> F64.isFinite (F64.round2 x) = false.
Proof.
  intros H. destruct (@f64_not_finite x H) as [-> | [-> | ->]]; vm_compute; reflexivity.
Qed.

(** Dividing by +0 never gives a finite number. *)
Lemma f64_div_zero_not_finite (y : F64.num) : F64.isFinite (y / F64.zero)%f64 = false.
Proof.
  rewrite f64_isFinite_spec. unfold F64.div. rewrite FloatAxioms.div_spec.
  change (FloatOps.Prim2SF F64.zero) with (SpecFloat.S754_zero false).
  destruct (FloatOps.Prim2SF y); reflexivity.
Qed.

(** [Math.max(x, 0)] is never below 0. *)
Lemma f64_Math_max_not_negative (x : F64.num) :
  (F64.Math_max x F64.zero <? F64.zero)%f64 = false.
Proof.
  unfold F64.Math_max.
  destruct (F64.isNaN x || F64.isNaN F64.zero); [vm_compute; reflexivity|].
  destruct (x <? F64.zero)%f64 eqn:E1; [vm_compute; reflexivity|].
  destruct (F64.zero <? x)%f64 eqn:E2; [exact E1|].
  destruct (PrimFloat.is_zero x) eqn:E3; [|exact E1].
  unfold PrimFloat.is_zero in E3. rewrite FloatAxioms.eqb_spec in E3.
  unfold F64.ltb, F64.add. rewrite FloatAxioms.ltb_spec, FloatAxioms.add_spec.
  change (FloatOps.Prim2SF PrimFloat.zero) with (SpecFloat.S754_zero false) in E3.
  change (FloatOps.Prim2SF F64.zero) with (SpecFloat.S754_zero false).
  destruct (FloatOps.Prim2SF x) as [s|s| |s m e].
  - destruct s; reflexivity.
  - destruct s; discriminate E3.
  - discriminate E3.
  - destruct s; discriminate E3.
Qed.

Lemma f64_month_body_eq n i pmt t bal rows :
  F64.Mortgage.month_body n i pmt t (bal, rows)
  = (F64Parts.month_bal n i pmt t bal,
     push rows (F64Parts.month_row n i pmt t bal)).
Proof.
  unfold F64.Mortgage.month_body, F64Parts.month_row, F64Parts.month_bal,
    F64Parts.month_interest, F64Parts.month_principal.
  destruct (t =? n)%Z; reflexivity.
Qed.

Lemma f64_rows_unroll (principal rate : F64.num) (years : Z) :
  let n := (years * 12)%Z in
  let i := (rate / F64.of_Z 12)%f64 in
  let p := F64.Mortgage.pmt (F64.Mortgage.buildMortgageSchedule principal rate years) in
  F64.Mortgage.rows (F64.Mortgage.buildMortgageSchedule principal rate years)
  = outs (F64Parts.month_bal n i p) (F64Parts.month_row n i p)
         (Z.to_nat n) 1 principal.
Proof.
  cbn zeta.
  cbn [F64.Mortgage.buildMortgageSchedule F64.Mortgage.rows F64.Mortgage.pmt].
  unfold for_1_to.
  rewrite (for_from_unroll _ _ _ (f64_month_body_eq _ _ _)). reflexivity.
Qed.

Lemma f64_bal_entering_unroll (principal rate : F64.num) (years t : Z) :
  let n := (years * 12)%Z in
  let i := (rate / F64.of_Z 12)%f64 in
  let p := F64.Mortgage.pmt (F64.Mortgage.buildMortgageSchedule principal rate years) in
  F64Parts.bal_entering principal rate years t
  = vals (F64Parts.month_bal n i p) (Z.to_nat (t - 1)) 1 principal.
Proof.
  cbn zeta. unfold F64Parts.bal_entering.
  cbn [F64.Mortgage.buildMortgageSchedule F64.Mortgage.pmt].
  unfold for_1_to.
  rewrite (for_from_unroll _ _ _ (f64_month_body_eq _ _ _)). reflexivity.
Qed.

(** Row [j] is the row of month [j + 1], computed from the balance
    entering that month. *)
Lemma f64_row_at (principal rate : F64.num) (years : Z) (j : nat)
  (row : F64.Mortgage.AmortizationRow) :
  let res := F64.Mortgage.buildMortgageSchedule principal rate years in
  nth_error (F64.Mortgage.rows res) j = Some row ->
  (j < Z.to_nat (years * 12))%nat /\
  row = F64Parts.month_row (years * 12) (rate / F64.of_Z 12)%f64
          (F64.Mortgage.pmt res) (1 + Z.of_nat j)
          (F64Parts.bal_entering principal rate years (1 + Z.of_nat j)).
Proof.
  cbn zeta. rewrite f64_rows_unroll. cbn zeta. intros H.
  apply outs_nth_inv in H. destruct H as [Hj ->]. split; [exact Hj|].
  rewrite f64_bal_entering_unroll. cbn zeta.
  replace (Z.to_nat (1 + Z.of_nat j - 1)) with j by lia. reflexivity.
Qed.

Lemma f64_constGrowth_body_eq gConst t Dt arr :
  F64.Dividend.constGrowth_body gConst t (Dt, arr)
  = (F64Parts.cg_step gConst t Dt,
     push arr (F64.Dividend.ConstGrowthPt.mk t (F64Parts.cg_step gConst t Dt))).
Proof. reflexivity. Qed.

Lemma f64_twoStage_body_eq gShort gLong shortYears t Dt arr :
  F64.Dividend.twoStage_body gShort gLong shortYears t (Dt, arr)
  = (F64Parts.ts_step gShort gLong shortYears t Dt,
     push arr (F64.Dividend.TwoStagePt.mk t
                 (F64Parts.ts_step gShort gLong shortYears t Dt))).
Proof. reflexivity. Qed.

Lemma f64_data_total (D0 gConst gShort gLong : F64.num) (shortYears horizonYears : Z) :
  Array_from_throwing horizonYears (fun idx =>
      let? cg := at_index (snd (for_1_to horizonYears
                                  (F64.Dividend.constGrowth_body gConst)
                                  ((D0 * (F64.one + gConst))%f64, []))) idx in
      let? ts := at_index (snd (for_1_to horizonYears
                                  (F64.Dividend.twoStage_body gShort gLong shortYears)
                                  ((D0 * (F64.one + gShort))%f64, []))) idx in
      Some (F64.Dividend.mkPoint (Z.of_nat idx + 1) D0
              (F64.Dividend.ConstGrowthPt.constGrow cg)
              (F64.Dividend.TwoStagePt.twoStage ts)))
  = Some (F64Parts.series D0 gConst gShort gLong shortYears horizonYears).
Proof.
  unfold Array_from_throwing, Array_from, F64Parts.series, for_1_to.
  rewrite (for_from_unroll _ _ _ (f64_constGrowth_body_eq gConst)).
  rewrite (for_from_unroll _ _ _ (f64_twoStage_body_eq gShort gLong shortYears)).
  cbn [snd app]. apply all_some_map. intros idx Hidx.
  apply in_seq in Hidx. unfold at_index.
  rewrite !outs_nth by lia.
  cbn [bind F64.Dividend.ConstGrowthPt.constGrow F64.Dividend.TwoStagePt.twoStage].
  rewrite !vals_S_end. reflexivity.
Qed.

Lemma f64_series_nth (D0 gConst gShort gLong : F64.num) (shortYears horizonYears : Z)
  (j : nat) :
  (j < Z.to_nat horizonYears)%nat ->
  nth_error (F64Parts.series D0 gConst gShort gLong shortYears horizonYears) j
  = Some (F64.Dividend.mkPoint (Z.of_nat j + 1) D0
            (vals (F64Parts.cg_step gConst) (S j) 1 (D0 * (F64.one + gConst))%f64)
            (vals (F64Parts.ts_step gShort gLong shortYears) (S j) 1
                  (D0 * (F64.one + gShort))%f64)).
Proof.
  intros Hj. unfold F64Parts.series.
  apply (nth_error_Array_from horizonYears
           (fun idx => F64.Dividend.mkPoint (Z.of_nat idx + 1) D0
              (vals (F64Parts.cg_step gConst) (S idx) 1 (D0 * (F64.one + gConst))%f64)
              (vals (F64Parts.ts_step gShort gLong shortYears) (S idx) 1
                    (D0 * (F64.one + gShort))%f64)) Hj).
Qed.

(** The result of [buildDividendSeries], field by field. *)
Lemma f64_dividend_result
  (D0 required gConst gShort gLong : F64.num) (shortYears horizonYears : Z) :
  exists res,
    F64.Dividend.buildDividendSeries D0 required gConst gShort gLong
      shortYears horizonYears = Some res /\
    F64.Dividend.data res
    = F64Parts.series D0 gConst gShort gLong shortYears horizonYears /\
    F64.Dividend.priceNoGrowth res = (D0 / required)%f64 /\
    F64.Dividend.priceGordon res =
      (if (gConst <? required)%f64
       then (D0 * (F64.one + gConst) / (required - gConst))%f64 else F64.NaN) /\
    F64.Dividend.priceTwoStage res =
      (F64Parts.cf1 D0 required gShort shortYears
       + F64Parts.pvTV D0 required gShort gLong shortYears)%f64.
Proof.
  unfold F64.Dividend.buildDividendSeries. rewrite f64_data_total. cbn [bind].
  eexists. split; [reflexivity|]. cbn. repeat split.
Qed.

(* ================================================================== *)
(** * The properties *)
(* ================================================================== *)

(** ** The calculators on the default inputs *)

Example bond_default_price :
  let res := Bond.buildBondCashFlows Bond.default_face Bond.default_years
               Bond.default_couponRate Bond.default_ytm Bond.default_freq in
  finite_part (Bond.c res) = hundredths 430 /\
  finite_part (round2 (Bond.price res)) = hundredths 10884 /\
  map (fun p => finite_part (Bond.total p)) (Bond.flows res)
  = repeat (hundredths 430) 9 ++ [hundredths 10430].
Proof. vm_compute. repeat split. Qed.

Example mortgage_one_year :
  let res := Mortgage.buildMortgageSchedule (of_Z 1200) (dec 6 100) 1 in
  finite_part (Mortgage.pmt res) = hundredths 10328 /\
  finite_part (bal_entering (of_Z 1200) (dec 6 100) 1 12) = hundredths 10273 /\
  option_map (fun row => (Mortgage.month row,
                          finite_part (Mortgage.interest row),
                          finite_part (Mortgage.principal row),
                          finite_part (Mortgage.total row),
                          finite_part (Mortgage.balance row)))
    (nth_error (Mortgage.rows res) 11)
  = Some (12%Z, hundredths 55, hundredths 10273, hundredths 10328, hundredths 0).
Proof. vm_compute. repeat split. Qed.

Example dividend_default_prices :
  option_map (fun res => (finite_part (Dividend.priceNoGrowth res),
                          finite_part (Dividend.priceGordon res),
                          finite_part (round2 (Dividend.priceTwoStage res)),
                          length (Dividend.data res)))
    (Dividend.buildDividendSeries Dividend.default_D0 Dividend.default_required
       Dividend.default_gConst Dividend.default_gShort Dividend.default_gLong
       Dividend.default_shortYears Dividend.default_horizonYears)
  = Some (hundredths 5000, hundredths 10500, hundredths 8009, 10%nat).
Proof. vm_compute. reflexivity. Qed.

(** ** Bond price and cash flows *)



(** ** Mortgage schedule *)

(** The default mortgage over binary64: the balance entering the final
    month is finite and unchanged by [round2], and the final row has it
    as principal portion and leaves a balance of 0. *)
Example f64_mortgage_default_final_month :
  let principal := F64.of_Z 800000 in
  let rate := F64.dec 6 100 in
  let res := F64.Mortgage.buildMortgageSchedule principal rate 30 in
  let b := F64Parts.bal_entering principal rate 30 360 in
  F64.isFinite b = true /\ F64.round2 b = b /\
  option_map (fun row => (F64.Mortgage.month row, F64.Mortgage.principal row,
                          F64.Mortgage.balance row))
    (nth_error (F64.Mortgage.rows res) 359)
  = Some (360%Z, b, F64.zero).
Proof. vm_compute. repeat split. Qed.






(** ** Dividend prices *)

(** In binary64 the Gordon price of a positive dividend is not always
    finite, nor always positive: with [D0 = 1e308] the product
    overflows and the price is [+Infinity]; with the least positive
    [D0 = 2^-1074] and [gConst = -0.9] the product underflows and the
    price is 0. *)
Example f64_gordon_overflow_underflow :
  let tiny := (F64.dec 1 (2 ^ 1000) / F64.of_Z (2 ^ 74))%f64 in
  (F64.zero <? tiny)%f64 = true /\
  option_map F64.Dividend.priceGordon
    (F64.Dividend.buildDividendSeries (F64.of_Z (10 ^ 308)) (F64.dec 1 10)
       (F64.dec 5 100) (F64.dec 5 100) (F64.dec 3 100) 5 10)
  = Some F64.PInf /\
  option_map F64.Dividend.priceGordon
    (F64.Dividend.buildDividendSeries tiny (F64.dec 1 10)
       (F64.dec (-9) 10) (F64.dec 5 100) (F64.dec 3 100) 5 10)
  = Some F64.zero.
Proof. vm_compute. repeat split. Qed.

(** C3, as amended.  On finite inputs with a positive required return:
    when [required <= gConst] the Gordon price is NaN; when
    [gConst < required] it is the value the code computes for
    [D0 * (1 + gConst) / (required - gConst)], which is neither negative
    nor NaN when [D0 >= 0] and [gConst >= -1] (it can be 0). *)
Theorem gordon_price_cases
  (D0 required gConst gShort gLong : Qc) (shortYears horizonYears : Z) :
  (0 < required)%Qc ->
  exists res,
    Dividend.buildDividendSeries (Fin D0) (Fin required) (Fin gConst)
      (Fin gShort) (Fin gLong) shortYears horizonYears = Some res /\
    ((required <= gConst)%Qc -> Dividend.priceGordon res = NaN) /\
    ((gConst < required)%Qc ->
       Dividend.priceGordon res
       = (Fin D0 * (one + Fin gConst) / (Fin required - Fin gConst))%num /\
       ((0 <= D0)%Qc -> (0 <= 1 + gConst)%Qc ->
          (Dividend.priceGordon res <? zero)%num = false /\
          isNaN (Dividend.priceGordon res) = false)).
Proof.
  intros Hr.
  destruct (dividend_result (Fin D0) (Fin required) (Fin gConst) (Fin gShort)
              (Fin gLong) shortYears horizonYears)
    as (res & Hres & _ & _ & HG & _).
  exists res. split; [exact Hres|]. rewrite HG. split.
  - intros Hg. apply gordon_NaN, Hg.
  - intros Hg. split.
    + rewrite (proj2 (ltb_Fin gConst required) Hg). reflexivity.
    + intros Hd H1. rewrite gordon_Fin by assumption. split; [|reflexivity].
      rewrite zero_is_0. apply ltb_Fin_false, gordon_nonneg; assumption.
Qed.

Lemma gordon_price_cases_witness :
  exists res,
    Dividend.buildDividendSeries (Fin (Q2Qc 5)) (Fin (Q2Qc (1 # 10)))
      (Fin (Q2Qc (5 # 100))) (Fin (Q2Qc (5 # 100))) (Fin (Q2Qc (3 # 100)))
      5 10 = Some res /\
    ((Q2Qc (1 # 10) <= Q2Qc (5 # 100))%Qc -> Dividend.priceGordon res = NaN) /\
    ((Q2Qc (5 # 100) < Q2Qc (1 # 10))%Qc ->
       Dividend.priceGordon res
       = (Fin (Q2Qc 5) * (one + Fin (Q2Qc (5 # 100)))
          / (Fin (Q2Qc (1 # 10)) - Fin (Q2Qc (5 # 100))))%num /\
       ((0 <= Q2Qc 5)%Qc -> (0 <= 1 + Q2Qc (5 # 100))%Qc ->
          (Dividend.priceGordon res <? zero)%num = false /\
          isNaN (Dividend.priceGordon res) = false)).
Proof.
  exact (@gordon_price_cases (Q2Qc 5) (Q2Qc (1 # 10)) (Q2Qc (5 # 100))
           (Q2Qc (5 # 100)) (Q2Qc (3 # 100)) 5 10 eq_refl).
Defined.

(** C3 as stated fails: with [D0 = 0], [required = 0.1] and
    [gConst = 0.05 < required], the Gordon price returned is 0, which is
    not positive. *)
Lemma gordon_price_zero_dividend :
  exists res,
    Dividend.buildDividendSeries zero (dec 1 10) (dec 5 100) (dec 5 100)
      (dec 3 100) 5 10 = Some res /\
    ((dec 5 100) <? (dec 1 10))%num = true /\
    Dividend.priceGordon res = zero /\
    ~ (exists p, Dividend.priceGordon res = Fin p /\ (0 < p)%Qc).
Proof.
  destruct (dividend_result zero (dec 1 10) (dec 5 100) (dec 5 100)
              (dec 3 100) 5 10)
    as (res & Hres & _ & _ & HG & _).
  exists res. split; [exact Hres|]. split; [reflexivity|].
  assert (E : Dividend.priceGordon res = zero).
  { rewrite HG. unfold dec, of_Q, zero, of_Z, of_Q.
    rewrite gordon_Fin by reflexivity.
    apply f_equal, Qc_is_canon. reflexivity. }
  split; [exact E|].
  intros (p & Hp & Hpos). rewrite E in Hp. injection Hp as <-.
  discriminate Hpos.
Qed.






(** ** Degenerate inputs *)

(** C6 as stated fails for [years = 0]: with the default face, rates and
    frequency and [years = 0], every number of the bond result is finite
    (no flows, [n = 0], price 100). *)
Lemma bond_zero_years_is_numeric :
  let res := Bond.buildBondCashFlows Bond.default_face 0
               Bond.default_couponRate Bond.default_ytm Bond.default_freq in
  bond_numeric res = true /\ Bond.flows res = [] /\ Bond.n res = 0%Z /\
  Bond.price res = Bond.default_face.
Proof.
  cbn zeta. split; [vm_compute; reflexivity|].
  split; [vm_compute; reflexivity|].
  split; [reflexivity|].
  apply bond_price_no_period. reflexivity.
Qed.

(** C6, as amended.  None of the degenerate cases is guarded.  With
    [freq = 0] the per-period coupon [c] and rate [r] are not finite
    (an infinity, or NaN), while there is no flow and the price is
    [face].  With [years = 0], a non-zero [freq] and finite inputs every
    number of the result is finite: no flow, price [face].  With
    [rate = 0] the mortgage payment is NaN. *)
Theorem degenerate_inputs
  (face couponRate ytm principal : num) (years freq : Z) (f cr y : Qc) :
  freq <> 0%Z ->
  (let res := Bond.buildBondCashFlows face years couponRate ytm 0 in
   isFinite (Bond.c res) = false /\ isFinite (Bond.r res) = false /\
   Bond.price res = face /\ Bond.flows res = []) /\
  (let res := Bond.buildBondCashFlows (Fin f) 0 (Fin cr) (Fin y) freq in
   bond_numeric res = true /\ Bond.price res = Fin f /\ Bond.flows res = []) /\
  Mortgage.pmt (Mortgage.buildMortgageSchedule principal zero years) = NaN.
Proof.
  intros Hf. split; [|split].
  - cbn zeta.
    destruct (@bond_price_no_period face years couponRate ytm 0) as [Hp Hfl];
      [apply Z.mul_0_r|].
    repeat split; try assumption.
    + cbn [Bond.buildBondCashFlows Bond.c]. apply div_zero_not_finite.
    + cbn [Bond.buildBondCashFlows Bond.r]. apply div_zero_not_finite.
  - cbn zeta.
    destruct (@bond_price_no_period (Fin f) 0 (Fin cr) (Fin y) freq) as [Hp Hfl];
      [reflexivity|].
    repeat split; try assumption.
    unfold bond_numeric. rewrite Hfl, Hp.
    cbn [Bond.buildBondCashFlows Bond.c Bond.r].
    rewrite mul_Fin, !div_of_Z by exact Hf. reflexivity.
  - apply payment_zero_rate.
Qed.

Lemma degenerate_inputs_witness :
  (let res := Bond.buildBondCashFlows Bond.default_face 5
                Bond.default_couponRate Bond.default_ytm 0 in
   isFinite (Bond.c res) = false /\ isFinite (Bond.r res) = false /\
   Bond.price res = Bond.default_face /\ Bond.flows res = []) /\
  (let res := Bond.buildBondCashFlows (Fin (Q2Qc 100)) 0
                (Fin (Q2Qc (86 # 1000))) (Fin (Q2Qc (65 # 1000))) 2 in
   bond_numeric res = true /\ Bond.price res = Fin (Q2Qc 100) /\
   Bond.flows res = []) /\
  Mortgage.pmt (Mortgage.buildMortgageSchedule Mortgage.default_principal zero 30)
  = NaN.
Proof.
  refine (@degenerate_inputs Bond.default_face Bond.default_couponRate
            Bond.default_ytm Mortgage.default_principal 5 2
            (Q2Qc 100) (Q2Qc (86 # 1000)) (Q2Qc (65 # 1000)) _).
  discriminate.
Defined.

(** ** Lengths *)

(** C7.  For positive integer inputs [buildBondCashFlows] returns
    [years * freq] cash-flow points, [buildMortgageSchedule] returns
    [years * 12] rows, and [buildDividendSeries] returns, with
    [horizonYears] series points. *)
Theorem sequence_lengths
  (face couponRate ytm principal rate D0 required gConst gShort gLong : num)
  (years freq term shortYears horizonYears : Z) :
  (0 < years)%Z -> (0 < freq)%Z -> (0 < term)%Z -> (0 < horizonYears)%Z ->
  Z.of_nat (length (Bond.flows
                      (Bond.buildBondCashFlows face years couponRate ytm freq)))
  = (years * freq)%Z /\
  Z.of_nat (length (Mortgage.rows
                      (Mortgage.buildMortgageSchedule principal rate term)))
  = (term * 12)%Z /\
  exists res,
    Dividend.buildDividendSeries D0 required gConst gShort gLong
      shortYears horizonYears = Some res /\
    Z.of_nat (length (Dividend.data res)) = horizonYears.
Proof.
  intros Hy Hf Ht Hh. split; [|split].
  - rewrite bond_flows_unroll, outs_length. lia.
  - rewrite mortgage_rows_length. lia.
  - destruct (dividend_result D0 required gConst gShort gLong
                shortYears horizonYears) as (res & Hres & Hdata & _).
    exists res. split; [exact Hres|].
    rewrite Hdata, series_length. lia.
Qed.

Lemma sequence_lengths_witness :
  Z.of_nat (length (Bond.flows
                      (Bond.buildBondCashFlows Bond.default_face 5
                         Bond.default_couponRate Bond.default_ytm 2)))
  = 10%Z /\
  Z.of_nat (length (Mortgage.rows
                      (Mortgage.buildMortgageSchedule
                         Mortgage.default_principal Mortgage.default_rate 30)))
  = 360%Z /\
  exists res,
    Dividend.buildDividendSeries Dividend.default_D0 Dividend.default_required
      Dividend.default_gConst Dividend.default_gShort Dividend.default_gLong
      5 10 = Some res /\
    Z.of_nat (length (Dividend.data res)) = 10%Z.
Proof.
  exact (@sequence_lengths Bond.default_face Bond.default_couponRate
           Bond.default_ytm Mortgage.default_principal Mortgage.default_rate
           Dividend.default_D0 Dividend.default_required Dividend.default_gConst
           Dividend.default_gShort Dividend.default_gLong
           5 2 30 5 10 eq_refl eq_refl eq_refl eq_refl).
Defined.

(** ** The two versions *)

(** C9.  On every input the earlier version of [buildDividendSeries]
    returns what the one of [App.jsx] returns (same series and prices,
    or the same failure), and so do the two versions of
    [buildBondCashFlows] (same flows, price, c, r, n). *)
Theorem versions_agree
  (face couponRate ytm D0 required gConst gShort gLong : num)
  (years freq shortYears horizonYears : Z) :
  Part000.buildDividendSeries D0 required gConst gShort gLong
    shortYears horizonYears
  = Dividend.buildDividendSeries D0 required gConst gShort gLong
      shortYears horizonYears /\
  Part000.buildBondCashFlows face years couponRate ytm freq
  = Bond.buildBondCashFlows face years couponRate ytm freq.
Proof.
  split; [|reflexivity].
  unfold Part000.buildDividendSeries, Dividend.buildDividendSeries.
  rewrite data_total.
  replace (Array_from_throwing horizonYears _)
    with (Some (series D0 gConst gShort gLong shortYears horizonYears)).
  - reflexivity.
  - symmetry. rewrite <- (data_total D0 gConst gShort gLong shortYears horizonYears).
    apply Array_from_throwing_ext. intros idx Hidx.
    unfold at_index at 1. rewrite nth_error_Array_from by exact Hidx. reflexivity.
Qed.

(* ================================================================== *)
(** * Further properties: rounding *)
(* ================================================================== *)

Lemma this_cents (k : Z) : (this (cents k) == inject_Z k / 100)%Q.
Proof.
  unfold cents. rewrite this_Q2Qc. unfold Qeq. cbn. lia.
Qed.

Lemma cents_le (a b : Z) : (a <= b)%Z -> (cents a <= cents b)%Qc.
Proof.
  intros H. to_Q. rewrite !this_cents.
  apply Qmult_le_compat_r; [|discriminate]. rewrite <- Zle_Qle. exact H.
Qed.

(** X3.  [round2] is monotone on finite numbers. *)
Theorem round2_monotone (a b : Qc) :
  (a <= b)%Qc -> (round2 (Fin b) <? round2 (Fin a))%num = false.
Proof.
  intros H. rewrite !round2_Fin. apply ltb_Fin_false, cents_le.
  unfold round_cents. apply Qfloor_resp_le. to_Q. unfold inject_Z. lra.
Qed.

Lemma round2_monotone_witness :
  (round2 (Fin (Q2Qc (2 # 1))) <? round2 (Fin (Q2Qc (1 # 1))))%num = false.
Proof.
  refine (@round2_monotone (Q2Qc (1 # 1)) (Q2Qc (2 # 1)) _). discriminate.
Defined.

(* ================================================================== *)
(** * Further properties: arithmetic of the idealised numbers *)
(* ================================================================== *)

Lemma add_zero_r (x : num) : (x + zero)%num = x.
Proof.
  destruct x as [a| | |]; try reflexivity.
  rewrite zero_is_0, add_Fin. f_equal. ring.
Qed.

Lemma of_Z_div_exact (a b : Z) :
  b <> 0%Z -> (of_Z (a * b) / of_Z b)%num = of_Z a.
Proof.
  intros Hb. unfold of_Z, of_Q. rewrite div_Fin by (apply Q2Qc_inject_nonzero, Hb).
  f_equal. apply Qc_is_canon. to_Q. rewrite inject_Z_mult. field.
  intros E. apply Hb. unfold Qeq in E. cbn in E. lia.
Qed.

(* ================================================================== *)
(** * Further properties: bond *)
(* ================================================================== *)

Module BondFacts.
Import Bond.

(** X4.  For positive [years] and [freq], the cash-flow point at index
    [j] has period [(j + 1) / freq], coupon [c], [other] equal to [face]
    at the last period and 0 before, and [coupon + other = total]; the
    last period is [years]. *)
Theorem bond_flows_shape
  (face : num) (years : Z) (couponRate ytm : num) (freq : Z) (j : nat) :
  (0 < years)%Z -> (0 < freq)%Z -> (Z.of_nat j < years * freq)%Z ->
  let res := buildBondCashFlows face years couponRate ytm freq in
  exists p,
    nth_error (flows res) j = Some p /\
    period p = (of_Z (Z.of_nat j + 1) / of_Z freq)%num /\
    coupon p = c res /\
    other p = (if (Z.of_nat j + 1 =? years * freq)%Z then face else zero) /\
    (coupon p + other p)%num = total p /\
    ((Z.of_nat j + 1 = years * freq)%Z -> period p = of_Z years).
Proof.
  intros Hy Hf Hj res. unfold res. rewrite bond_flows_unroll. cbn zeta.
  rewrite outs_nth by lia. eexists. split; [reflexivity|].
  cbn [period coupon other total buildBondCashFlows c].
  replace (1 + Z.of_nat j)%Z with (Z.of_nat j + 1)%Z by lia.
  repeat split.
  - destruct (Z.of_nat j + 1 =? years * freq)%Z; [reflexivity | apply add_zero_r].
  - intros ->. apply of_Z_div_exact. lia.
Qed.

Lemma bond_flows_shape_witness :
  let face := default_face in
  let res := buildBondCashFlows face 5 default_couponRate default_ytm 2 in
  exists p,
    nth_error (flows res) 9 = Some p /\
    period p = (of_Z (Z.of_nat 9 + 1) / of_Z 2)%num /\
    coupon p = c res /\
    other p = (if (Z.of_nat 9 + 1 =? 5 * 2)%Z then face else zero) /\
    (coupon p + other p)%num = total p /\
    ((Z.of_nat 9 + 1 = 5 * 2)%Z -> period p = of_Z 5).
Proof.
  exact (@bond_flows_shape default_face 5 default_couponRate default_ytm 2 9
           eq_refl eq_refl eq_refl).
Defined.

End BondFacts.

(* ================================================================== *)
(** * Further properties: mortgage *)
(* ================================================================== *)

(** X8.  In binary64, on every principal and rate, row [j] of the
    schedule is the row of month [j + 1], and the balance it shows is
    never below 0, whatever the running balance is. *)
Theorem mortgage_rows_in_order (principal rate : F64.num) (years : Z) (j : nat) :
  (Z.of_nat j < years * 12)%Z ->
  let res := F64.Mortgage.buildMortgageSchedule principal rate years in
  exists row,
    nth_error (F64.Mortgage.rows res) j = Some row /\
    F64.Mortgage.month row = (Z.of_nat j + 1)%Z /\
    (F64.Mortgage.balance row <? F64.zero)%f64 = false.
Proof.
  intros Hj res. unfold res. rewrite f64_rows_unroll. cbn zeta.
  rewrite outs_nth by lia. eexists. split; [reflexivity|].
  cbn [F64Parts.month_row F64.Mortgage.month F64.Mortgage.balance].
  split; [lia | apply f64_Math_max_not_negative].
Qed.

Lemma mortgage_rows_in_order_witness :
  let res := F64.Mortgage.buildMortgageSchedule (F64.of_Z 800000) (F64.dec 6 100) 30 in
  exists row,
    nth_error (F64.Mortgage.rows res) 359 = Some row /\
    F64.Mortgage.month row = (Z.of_nat 359 + 1)%Z /\
    (F64.Mortgage.balance row <? F64.zero)%f64 = false.
Proof.
  exact (@mortgage_rows_in_order (F64.of_Z 800000) (F64.dec 6 100) 30 359 eq_refl).
Defined.

(** X9.  In binary64, with a term of zero or fewer years the schedule has
    no row; with a term of exactly zero the payment is [round2] of a
    division by [1 - 1 = 0] and is not finite, whatever the principal
    and the rate are. *)
Theorem mortgage_without_term (principal rate : F64.num) (years : Z) :
  (years <= 0)%Z ->
  let res := F64.Mortgage.buildMortgageSchedule principal rate years in
  F64.Mortgage.rows res = [] /\
  (years = 0%Z -> F64.isFinite (F64.Mortgage.pmt res) = false).
Proof.
  intros Hy res. split.
  - unfold res. rewrite f64_rows_unroll. cbn zeta.
    replace (Z.to_nat (years * 12)) with O by lia. reflexivity.
  - intros ->. unfold res.
    cbn [F64.Mortgage.buildMortgageSchedule F64.Mortgage.pmt].
    change (0 * 12)%Z with 0%Z. cbn [Z.opp F64.Math_pow].
    apply f64_round2_not_finite.
    change (F64.one - F64.one)%f64 with F64.zero.
    apply f64_div_zero_not_finite.
Qed.

Lemma mortgage_without_term_witness :
  let res := F64.Mortgage.buildMortgageSchedule (F64.of_Z 800000) (F64.dec 6 100) 0 in
  F64.Mortgage.rows res = [] /\
  (0%Z = 0%Z -> F64.isFinite (F64.Mortgage.pmt res) = false).
Proof.
  refine (@mortgage_without_term (F64.of_Z 800000) (F64.dec 6 100) 0 _).
  discriminate.
Defined.

(** X19.  In binary64, for every principal and rate: the balance
    entering month 1 is the principal; of two consecutive rows the
    second is the row of the following month, the balance entering it
    is [round2] of the balance entering the first minus the principal
    portion of the first, and the first row shows [Math.max] of that
    balance and 0.  When that balance is above 0 the row shows it as it
    is, and the interest of the next row, unless it is the last, is
    [round2] of the balance shown times [rate / 12]. *)
Theorem mortgage_balance_chain (principal rate : F64.num) (years : Z) (j : nat) :
  (Z.of_nat j + 1 < years * 12)%Z ->
  let res := F64.Mortgage.buildMortgageSchedule principal rate years in
  let bal := F64Parts.bal_entering principal rate years in
  bal 1%Z = principal /\
  exists row next,
    nth_error (F64.Mortgage.rows res) j = Some row /\
    nth_error (F64.Mortgage.rows res) (S j) = Some next /\
    F64.Mortgage.month next = (F64.Mortgage.month row + 1)%Z /\
    bal (F64.Mortgage.month next)
    = F64.round2 (bal (F64.Mortgage.month row) - F64.Mortgage.principal row) /\
    F64.Mortgage.balance row = F64.Math_max (bal (F64.Mortgage.month next)) F64.zero /\
    ((F64.zero <? bal (F64.Mortgage.month next))%f64 = true ->
     F64.Mortgage.balance row = bal (F64.Mortgage.month next) /\
     (F64.Mortgage.month next <> (years * 12)%Z ->
      F64.Mortgage.interest next
      = F64.round2 (F64.Mortgage.balance row * (rate / F64.of_Z 12)))).
Proof.
  intros Hj res bal. split; [reflexivity|].
  set (n := (years * 12)%Z). set (i := (rate / F64.of_Z 12)%f64).
  set (p := F64.Mortgage.pmt res).
  assert (Hb : forall k, bal (1 + Z.of_nat k)%Z
                         = vals (F64Parts.month_bal n i p) k 1 principal).
  { intros k. unfold bal. rewrite f64_bal_entering_unroll. cbn zeta.
    replace (Z.to_nat (1 + Z.of_nat k - 1)) with k by lia. reflexivity. }
  exists (F64Parts.month_row n i p (1 + Z.of_nat j) (bal (1 + Z.of_nat j)%Z)),
         (F64Parts.month_row n i p (1 + Z.of_nat (S j)) (bal (1 + Z.of_nat (S j))%Z)).
  assert (Hrows : F64.Mortgage.rows res
                  = outs (F64Parts.month_bal n i p) (F64Parts.month_row n i p)
                         (Z.to_nat n) 1 principal)
    by (unfold res; apply f64_rows_unroll).
  split; [rewrite Hrows, outs_nth, Hb by (unfold n; lia); reflexivity|].
  split; [rewrite Hrows, outs_nth, Hb by (unfold n; lia); reflexivity|].
  cbn [F64Parts.month_row F64.Mortgage.month F64.Mortgage.principal
       F64.Mortgage.balance F64.Mortgage.interest].
  assert (Hnext : bal (1 + Z.of_nat (S j))%Z
                  = F64Parts.month_bal n i p (1 + Z.of_nat j) (bal (1 + Z.of_nat j)%Z)).
  { rewrite !Hb, vals_S_end. reflexivity. }
  split; [lia|]. split; [exact Hnext|]. split; [rewrite Hnext; reflexivity|].
  intros Hpos. rewrite <- Hnext. rewrite f64_Math_max_positive by exact Hpos.
  split; [reflexivity|].
  intros Hm. apply Z.eqb_neq in Hm. fold n in Hm.
  unfold F64Parts.month_interest. rewrite Hm. reflexivity.
Qed.

Lemma mortgage_balance_chain_witness :
  let principal := F64.of_Z 800000 in
  let rate := F64.dec 6 100 in
  let res := F64.Mortgage.buildMortgageSchedule principal rate 30 in
  let bal := F64Parts.bal_entering principal rate 30 in
  bal 1%Z = principal /\
  exists row next,
    nth_error (F64.Mortgage.rows res) 0 = Some row /\
    nth_error (F64.Mortgage.rows res) 1 = Some next /\
    F64.Mortgage.month next = (F64.Mortgage.month row + 1)%Z /\
    bal (F64.Mortgage.month next)
    = F64.round2 (bal (F64.Mortgage.month row) - F64.Mortgage.principal row) /\
    F64.Mortgage.balance row = F64.Math_max (bal (F64.Mortgage.month next)) F64.zero /\
    ((F64.zero <? bal (F64.Mortgage.month next))%f64 = true ->
     F64.Mortgage.balance row = bal (F64.Mortgage.month next) /\
     (F64.Mortgage.month next <> (30 * 12)%Z ->
      F64.Mortgage.interest next
      = F64.round2 (F64.Mortgage.balance row * (rate / F64.of_Z 12)))).
Proof.
  exact (@mortgage_balance_chain (F64.of_Z 800000) (F64.dec 6 100) 30 0 eq_refl).
Defined.

Lemma part000_month_body_eq i pmt t bal rows :
  Part000.month_body i pmt t (bal, rows)
  = (raw_bal i pmt t bal, push rows (raw_row i pmt t bal)).
Proof. reflexivity. Qed.

Lemma part000_rows_unroll (principal rate : num) (years : Z) :
  let n := (years * 12)%Z in
  let i := (rate / of_Z 12)%num in
  let p := Mortgage.pmt (Part000.buildMortgageSchedule principal rate years) in
  Mortgage.rows (Part000.buildMortgageSchedule principal rate years)
  = outs (raw_bal i p) (raw_row i p) (Z.to_nat n) 1 principal.
Proof.
  cbn zeta. cbn [Part000.buildMortgageSchedule Mortgage.rows Mortgage.pmt].
  unfold for_1_to.
  rewrite (for_from_unroll _ _ _ (part000_month_body_eq _ _)). reflexivity.
Qed.

(* ================================================================== *)
(** * Further properties: dividends *)
(* ================================================================== *)

Module DividendFacts.
Import Dividend.

Lemma series_nth (D0 gConst gShort gLong : num) (shortYears horizonYears : Z) (j : nat) :
  (j < Z.to_nat horizonYears)%nat ->
  nth_error (series D0 gConst gShort gLong shortYears horizonYears) j
  = Some (mkPoint (Z.of_nat j + 1) D0
            (vals (cg_step gConst) (S j) 1 (D0 * (one + gConst))%num)
            (vals (ts_step gShort gLong shortYears) (S j) 1
                  (D0 * (one + gShort))%num)).
Proof.
  intros Hj. unfold series.
  apply (nth_error_Array_from horizonYears
           (fun idx => mkPoint (Z.of_nat idx + 1) D0
              (vals (cg_step gConst) (S idx) 1 (D0 * (one + gConst))%num)
              (vals (ts_step gShort gLong shortYears) (S idx) 1
                    (D0 * (one + gShort))%num)) Hj).
Qed.

Lemma twoStage_closed_form (D0 gS gL : Qc) (shortYears : Z) (k : nat) :
  let a := Nat.min (S k) (Nat.max (Z.to_nat shortYears) 1) in
  vals (ts_step (Fin gS) (Fin gL) shortYears) (S k) 1 (Fin D0 * (one + Fin gS))%num
  = Fin (D0 * (1 + gS) ^ a * (1 + gL) ^ (S k - a)).
Proof.
  cbn zeta. rewrite one_plus_Fin, mul_Fin.
  induction k as [|k IH].
  - cbn [vals]. unfold ts_step. change (1 <? 1)%Z with false. cbn iota.
    replace (Nat.min 1 (Nat.max (Z.to_nat shortYears) 1)) with 1%nat by lia.
    cbn [Nat.sub Qcpower]. f_equal. ring.
  - rewrite vals_S_end, IH. unfold ts_step.
    replace (1 <? 1 + Z.of_nat (S k))%Z with true by (symmetry; apply Z.ltb_lt; lia).
    destruct (Z.leb_spec (1 + Z.of_nat (S k)) shortYears) as [Hle|Hgt].
    + replace (Nat.min (S k) (Nat.max (Z.to_nat shortYears) 1)) with (S k) by lia.
      replace (Nat.min (S (S k)) (Nat.max (Z.to_nat shortYears) 1)) with (S (S k)) by lia.
      rewrite !Nat.sub_diag. rewrite one_plus_Fin, mul_Fin. f_equal.
      cbn [Qcpower]. ring.
    + set (a := Nat.max (Z.to_nat shortYears) 1).
      assert (Ha : (a <= S k)%nat) by (unfold a; lia).
      replace (Nat.min (S k) a) with a by lia.
      replace (Nat.min (S (S k)) a) with a by lia.
      replace (S (S k) - a)%nat with (S (S k - a)) by lia.
      rewrite one_plus_Fin, mul_Fin. f_equal. cbn [Qcpower]. ring.
Qed.

Lemma ts_cg_agree (g gL : num) (shortYears : Z) (k : nat) :
  forall t v,
    (t + Z.of_nat k - 1 <= shortYears)%Z ->
    vals (ts_step g gL shortYears) k t v = vals (cg_step g) k t v.
Proof.
  induction k as [|k IH]; intros t v H; [reflexivity|].
  cbn [vals].
  replace (ts_step g gL shortYears t v) with (cg_step g t v).
  - apply IH. lia.
  - unfold ts_step, cg_step.
    replace (t <=? shortYears)%Z with true by (symmetry; apply Z.leb_le; lia).
    reflexivity.
Qed.

(** X12.  When [shortYears >= horizonYears] and the short-term rate is
    the constant rate, the two-stage series is the constant-growth
    series, on every input. *)
Theorem two_stage_series_is_constant_growth
  (D0 required g gLong : num) (shortYears horizonYears : Z) :
  (horizonYears <= shortYears)%Z ->
  exists res,
    buildDividendSeries D0 required g g gLong shortYears horizonYears = Some res /\
    length (data res) = Z.to_nat horizonYears /\
    Forall (fun pt => twoStage pt = constGrow pt) (data res).
Proof.
  intros H.
  destruct (dividend_result D0 required g g gLong shortYears horizonYears)
    as (res & Hres & Hdata & _).
  exists res. split; [exact Hres|]. rewrite Hdata.
  split; [apply series_length|].
  unfold series. apply Forall_map, Forall_forall. intros idx Hidx.
  apply in_seq in Hidx. cbn [twoStage constGrow].
  apply ts_cg_agree. lia.
Qed.

Lemma two_stage_series_is_constant_growth_witness :
  exists res,
    buildDividendSeries default_D0 default_required default_gConst
      default_gConst default_gLong 12 10 = Some res /\
    length (data res) = Z.to_nat 10 /\
    Forall (fun pt => twoStage pt = constGrow pt) (data res).
Proof.
  refine (@two_stage_series_is_constant_growth default_D0 default_required
            default_gConst default_gLong 12 10 _).
  discriminate.
Defined.

Lemma growth_adds_value (D0 r g : Qc) :
  (0 < r)%Qc -> (0 <= D0)%Qc -> (0 <= g)%Qc -> (g < r)%Qc ->
  (D0 / r <= D0 * (1 + g) / (r - g))%Qc.
Proof.
  intros Hr Hd Hg Hgr. to_Q.
  apply Qle_shift_div_r; [exact Hr|].
  setoid_replace (this D0 * (1 + this g) / (this r - this g) * this r)%Q
    with (this D0 * (1 + this g) * this r / (this r - this g))%Q
    by (field; lra).
  apply Qle_shift_div_l; [lra|].
  assert (H1 : (0 <= this D0 * this g)%Q) by (apply Qmult_le_0_compat; assumption).
  assert (H2 : (0 <= this D0 * this g * this r)%Q)
    by (apply Qmult_le_0_compat; [assumption | lra]).
  nra.
Qed.

(** X13.  With a positive required return: at [gConst = 0] the Gordon
    price is the no-growth price; for [D0 >= 0] and
    [0 <= gConst < required] it is not below it. *)
Theorem gordon_vs_no_growth
  (D0 required gConst gShort gLong : Qc) (shortYears horizonYears : Z) :
  (0 < required)%Qc ->
  exists res,
    buildDividendSeries (Fin D0) (Fin required) (Fin gConst) (Fin gShort)
      (Fin gLong) shortYears horizonYears = Some res /\
    (gConst = 0%Qc -> priceGordon res = priceNoGrowth res) /\
    ((0 <= D0)%Qc -> (0 <= gConst)%Qc -> (gConst < required)%Qc ->
       (priceGordon res <? priceNoGrowth res)%num = false).
Proof.
  intros Hr.
  destruct (dividend_result (Fin D0) (Fin required) (Fin gConst) (Fin gShort)
              (Fin gLong) shortYears horizonYears)
    as (res & Hres & _ & HN & HG & _).
  exists res. split; [exact Hres|]. rewrite HN, HG, noGrowth_Fin by exact Hr.
  split.
  - intros ->. rewrite gordon_Fin by assumption. f_equal. field.
    intros E. rewrite E in Hr. discriminate Hr.
  - intros Hd Hg Hgr. rewrite gordon_Fin by assumption.
    apply ltb_Fin_false, growth_adds_value; assumption.
Qed.

Lemma gordon_vs_no_growth_witness :
  exists res,
    buildDividendSeries (Fin (Q2Qc 5)) (Fin (Q2Qc (1 # 10)))
      (Fin (Q2Qc (5 # 100))) (Fin (Q2Qc (5 # 100))) (Fin (Q2Qc (3 # 100)))
      5 10 = Some res /\
    (Q2Qc (5 # 100) = 0%Qc -> priceGordon res = priceNoGrowth res) /\
    ((0 <= Q2Qc 5)%Qc -> (0 <= Q2Qc (5 # 100))%Qc ->
     (Q2Qc (5 # 100) < Q2Qc (1 # 10))%Qc ->
       (priceGordon res <? priceNoGrowth res)%num = false).
Proof.
  exact (@gordon_vs_no_growth (Q2Qc 5) (Q2Qc (1 # 10)) (Q2Qc (5 # 100))
           (Q2Qc (5 # 100)) (Q2Qc (3 # 100)) 5 10 eq_refl).
Defined.

(** X14.  With [shortYears = 0] the two-stage price is the Gordon value
    at the long-term rate, [D0 (1 + gLong) / (required - gLong)], while
    the first point of the series still grows at [gShort]. *)
Theorem two_stage_without_short_stage
  (D0 required gConst gShort gLong : Qc) (horizonYears : Z) :
  (0 < required)%Qc -> (gLong < required)%Qc -> (0 < horizonYears)%Z ->
  exists res first,
    buildDividendSeries (Fin D0) (Fin required) (Fin gConst) (Fin gShort)
      (Fin gLong) 0 horizonYears = Some res /\
    priceTwoStage res = Fin (D0 * (1 + gLong) / (required - gLong)) /\
    nth_error (data res) 0 = Some first /\
    twoStage first = Fin (D0 * (1 + gShort)).
Proof.
  intros Hr Hg Hh.
  destruct (dividend_result (Fin D0) (Fin required) (Fin gConst) (Fin gShort)
              (Fin gLong) 0 horizonYears)
    as (res & Hres & Hdata & _ & _ & HT).
  exists res. eexists. split; [exact Hres|].
  rewrite HT, Hdata, twoStage_Fin by (assumption || lia).
  split; [|split; [apply series_nth; lia|]].
  - f_equal. unfold two_stage_value. cbn [Z.to_nat qsum Qcpower].
    field. split; [apply gap_nonzero; assumption | discriminate].
  - cbn [twoStage]. rewrite twoStage_closed_form. f_equal.
    cbn [Z.to_nat Nat.max Nat.min Nat.sub Qcpower]. ring.
Qed.

Lemma two_stage_without_short_stage_witness :
  exists res first,
    buildDividendSeries (Fin (Q2Qc 5)) (Fin (Q2Qc (1 # 10)))
      (Fin (Q2Qc (5 # 100))) (Fin (Q2Qc (5 # 100))) (Fin (Q2Qc (3 # 100)))
      0 10 = Some res /\
    priceTwoStage res
    = Fin (Q2Qc 5 * (1 + Q2Qc (3 # 100)) / (Q2Qc (1 # 10) - Q2Qc (3 # 100))) /\
    nth_error (data res) 0 = Some first /\
    twoStage first = Fin (Q2Qc 5 * (1 + Q2Qc (5 # 100))).
Proof.
  exact (@two_stage_without_short_stage (Q2Qc 5) (Q2Qc (1 # 10))
           (Q2Qc (5 # 100)) (Q2Qc (5 # 100)) (Q2Qc (3 # 100)) 10
           eq_refl eq_refl eq_refl).
Defined.

End DividendFacts.

(** X20.  In binary64, on every input: the first point of the series
    has constant-growth dividend [D0 (1 + gConst)] and two-stage
    dividend [D0 (1 + gShort)], whatever [shortYears] is; every later
    point is the point of the next year, with constant dividend [D0],
    constant-growth dividend the previous one times [1 + gConst], and
    two-stage dividend the previous one times [1 + gShort] while its
    year is at most [shortYears], times [1 + gLong] afterwards. *)
Theorem dividend_series_recurrence
  (D0 required gConst gShort gLong : F64.num) (shortYears horizonYears : Z) (j : nat) :
  (Z.of_nat j + 1 < horizonYears)%Z ->
  exists res first p q,
    F64.Dividend.buildDividendSeries D0 required gConst gShort gLong
      shortYears horizonYears = Some res /\
    nth_error (F64.Dividend.data res) 0 = Some first /\
    F64.Dividend.constGrow first = (D0 * (F64.one + gConst))%f64 /\
    F64.Dividend.twoStage first = (D0 * (F64.one + gShort))%f64 /\
    nth_error (F64.Dividend.data res) j = Some p /\
    nth_error (F64.Dividend.data res) (S j) = Some q /\
    F64.Dividend.year p = (Z.of_nat j + 1)%Z /\
    F64.Dividend.year q = (F64.Dividend.year p + 1)%Z /\
    F64.Dividend.constDiv q = D0 /\
    F64.Dividend.constGrow q = (F64.Dividend.constGrow p * (F64.one + gConst))%f64 /\
    F64.Dividend.twoStage q
    = (F64.Dividend.twoStage p
       * (F64.one + (if (F64.Dividend.year q <=? shortYears)%Z
                     then gShort else gLong)))%f64.
Proof.
  intros Hj.
  destruct (f64_dividend_result D0 required gConst gShort gLong
              shortYears horizonYears) as (res & H & Hd & _).
  exists res. do 3 eexists. split; [exact H|]. rewrite Hd.
  split; [apply f64_series_nth; lia|].
  split; [reflexivity|]. split; [reflexivity|].
  split; [apply f64_series_nth; lia|].
  split; [apply f64_series_nth; lia|].
  cbn [F64.Dividend.year F64.Dividend.constDiv F64.Dividend.constGrow
       F64.Dividend.twoStage].
  split; [reflexivity|]. split; [lia|]. split; [reflexivity|].
  rewrite !(vals_S_end _ (S j)).
  unfold F64Parts.cg_step at 1, F64Parts.ts_step at 1.
  replace (1 <? 1 + Z.of_nat (S j))%Z with true by (symmetry; apply Z.ltb_lt; lia).
  replace (1 + Z.of_nat (S j))%Z with (Z.of_nat (S j) + 1)%Z by lia.
  split; reflexivity.
Qed.

Lemma dividend_series_recurrence_witness :
  exists res first p q,
    F64.Dividend.buildDividendSeries (F64.of_Z 5) (F64.dec 1 10) (F64.dec 5 100)
      (F64.dec 5 100) (F64.dec 3 100) 5 10 = Some res /\
    nth_error (F64.Dividend.data res) 0 = Some first /\
    F64.Dividend.constGrow first = (F64.of_Z 5 * (F64.one + F64.dec 5 100))%f64 /\
    F64.Dividend.twoStage first = (F64.of_Z 5 * (F64.one + F64.dec 5 100))%f64 /\
    nth_error (F64.Dividend.data res) 4 = Some p /\
    nth_error (F64.Dividend.data res) 5 = Some q /\
    F64.Dividend.year p = (Z.of_nat 4 + 1)%Z /\
    F64.Dividend.year q = (F64.Dividend.year p + 1)%Z /\
    F64.Dividend.constDiv q = F64.of_Z 5 /\
    F64.Dividend.constGrow q
    = (F64.Dividend.constGrow p * (F64.one + F64.dec 5 100))%f64 /\
    F64.Dividend.twoStage q
    = (F64.Dividend.twoStage p
       * (F64.one + (if (F64.Dividend.year q <=? 5)%Z
                     then F64.dec 5 100 else F64.dec 3 100)))%f64.
Proof.
  exact (@dividend_series_recurrence (F64.of_Z 5) (F64.dec 1 10) (F64.dec 5 100)
           (F64.dec 5 100) (F64.dec 3 100) 5 10 4 eq_refl).
Defined.

(* ================================================================== *)
(** * Further properties: the callers *)
(* ================================================================== *)

Lemma Math_ceil_of_Z (z : Z) : Math_ceil (of_Z z) = of_Z z.
Proof.
  unfold of_Z at 1, of_Q. cbn [Math_ceil]. f_equal.
  rewrite this_Q2Qc. apply Qceiling_Z.
Qed.

Lemma ToLength_of_Z (z : Z) :
  (0 <= z < 2 ^ 53)%Z -> ToLength (of_Z z) = z.
Proof.
  intros Hz. unfold of_Z, of_Q. cbn [ToLength]. unfold Qtrunc.
  assert (E : Qle_bool 0 (Q2Qc (inject_Z z)) = true).
  { apply Qle_bool_iff. rewrite this_Q2Qc. rewrite <- (Zle_Qle 0). lia. }
  rewrite E, this_Q2Qc, Qfloor_Z. lia.
Qed.

Lemma mortgage_row_at (principal rate : num) (years : Z) (j : nat) :
  (j < Z.to_nat (years * 12))%nat ->
  exists row,
    nth_error (Mortgage.rows (Mortgage.buildMortgageSchedule principal rate years)) j
    = Some row /\
    Mortgage.month row = (1 + Z.of_nat j)%Z.
Proof.
  intros Hj. rewrite rows_unroll. cbn zeta. rewrite outs_nth by exact Hj.
  eexists. split; reflexivity.
Qed.

(** X16.  For the schedule of a term below [2^53] years the ticks are
    [12, 24, ..., 12 * years]; each lies within the axis domain
    [1 .. length] and is the month of the row it points at. *)
Theorem mortgage_ticks_mark_years (principal rate : num) (years : Z) :
  (years < 2 ^ 53)%Z ->
  let chart :=
    App.mortgageChart (Mortgage.buildMortgageSchedule principal rate years) in
  App.mortgageTicks chart = Array_from years (fun i => ((Z.of_nat i + 1) * 12)%Z) /\
  Forall (fun tick =>
            (1 <= tick <= Z.of_nat (length chart))%Z /\
            exists row,
              nth_error chart (Z.to_nat (tick - 1)) = Some row /\
              Mortgage.month row = tick)
         (App.mortgageTicks chart).
Proof.
  intros Hy chart.
  assert (Hlen : length chart = Z.to_nat (years * 12)) by apply mortgage_rows_length.
  assert (Hticks : App.mortgageTicks chart
                   = Array_from years (fun i => ((Z.of_nat i + 1) * 12)%Z)).
  { unfold App.mortgageTicks. rewrite Hlen.
    replace (Z.of_nat (Z.to_nat (years * 12))) with (Z.max 0 years * 12)%Z by lia.
    rewrite of_Z_div_exact by lia.
    rewrite Math_ceil_of_Z, ToLength_of_Z by lia.
    unfold Array_from. replace (Z.to_nat (Z.max 0 years)) with (Z.to_nat years) by lia.
    reflexivity. }
  split; [exact Hticks|]. rewrite Hticks.
  unfold Array_from. apply Forall_map, Forall_forall. intros i Hi.
  apply in_seq in Hi. rewrite Hlen. split; [lia|].
  destruct (@mortgage_row_at principal rate years
              (Z.to_nat ((Z.of_nat i + 1) * 12 - 1))) as (row & Hrow & Hm); [lia|].
  exists row. split; [exact Hrow|]. rewrite Hm. lia.
Qed.

Lemma mortgage_ticks_mark_years_witness :
  let chart :=
    App.mortgageChart
      (Mortgage.buildMortgageSchedule Mortgage.default_principal
         Mortgage.default_rate 30) in
  App.mortgageTicks chart = Array_from 30 (fun i => ((Z.of_nat i + 1) * 12)%Z) /\
  Forall (fun tick =>
            (1 <= tick <= Z.of_nat (length chart))%Z /\
            exists row,
              nth_error chart (Z.to_nat (tick - 1)) = Some row /\
              Mortgage.month row = tick)
         (App.mortgageTicks chart).
Proof.
  exact (@mortgage_ticks_mark_years Mortgage.default_principal
           Mortgage.default_rate 30 eq_refl).
Defined.

Lemma part000_row_at (principal rate : num) (years : Z) (j : nat) :
  (j < Z.to_nat (years * 12))%nat ->
  exists row,
    nth_error (Mortgage.rows (Part000.buildMortgageSchedule principal rate years)) j
    = Some row /\
    Mortgage.month row = (1 + Z.of_nat j)%Z.
Proof.
  intros Hj. rewrite part000_rows_unroll. cbn zeta. rewrite outs_nth by exact Hj.
  eexists. split; reflexivity.
Qed.

(** X17.  The chart of the earlier version holds the first
    [min 120 (12 * years)] rows of its schedule, row [k] being the row of
    month [k + 1]. *)
Theorem part000_chart_is_first_ten_years (principal rate : num) (years : Z) :
  let res := Part000.buildMortgageSchedule principal rate years in
  let chart := Part000App.mortgageChart res in
  length chart = Nat.min 120 (Z.to_nat (years * 12)) /\
  forall k, (k < length chart)%nat ->
    exists row,
      nth_error chart k = Some row /\
      nth_error (Mortgage.rows res) k = Some row /\
      Mortgage.month row = (Z.of_nat k + 1)%Z.
Proof.
  cbn zeta. unfold Part000App.mortgageChart.
  assert (Hlen : length (Mortgage.rows (Part000.buildMortgageSchedule principal rate years))
                 = Z.to_nat (years * 12)).
  { rewrite part000_rows_unroll. apply outs_length. }
  rewrite length_firstn, Hlen. split; [reflexivity|].
  intros k Hk.
  destruct (@part000_row_at principal rate years k) as (row & Hrow & Hm); [lia|].
  exists row. rewrite nth_error_firstn.
  destruct (Nat.ltb_spec k 120); [|lia].
  repeat split; [exact Hrow | exact Hrow | lia].
Qed.
